(** * Amazon sales data processor: a shallow embedding of
      [scripts/data_processor.py] and the properties of its views.

    The script cleans a sales table with pandas and derives twelve
    aggregate views from it.  The development has two layers:

    - the cleaning step: the raw table as a column store
      ([gmap string (list cell)]), on which [load_and_clean_data] runs;
    - the views, over the cleaned table read row by row with the column
      types that the views rely on (a list of [record]).

    Numbers.  A float64 is modelled by the value it stands for: a finite
    value is an exact rational, and the three special values of IEEE 754
    (the two infinities and NaN) are kept, because the script divides
    without guarding the denominator.  Rounding error of binary64, the
    sign of zero and overflow are outside the model. *)

From Stdlib Require Import ZArith QArith Qround Qabs List String Ascii Bool Lia.
From Stdlib Require Import Sorting.Sorted Sorting.Permutation.
From stdpp Require Import gmap strings list fin_maps pretty.
Import ListNotations.

Local Open Scope string_scope.
Local Open Scope Z_scope.

(** ** Numbers *)

Inductive num : Type :=
| Fin (q : Q)
| PInf
| NInf
| NaN.


Definition isna (x : num) : bool :=
  match x with NaN => true | _ => false end.

Definition Qzero (q : Q) : bool := Qnum q =? 0.
Definition Qneg (q : Q) : bool := Qnum q <? 0.

Definition nneg (x : num) : num :=
  match x with
  | Fin q => Fin (Qred (- q))
  | PInf => NInf
  | NInf => PInf
  | NaN => NaN
  end.

Definition nadd (x y : num) : num :=
  match x, y with
  | NaN, _ | _, NaN => NaN
  | Fin a, Fin b => Fin (Qred (a + b))
  | PInf, NInf | NInf, PInf => NaN
  | PInf, _ | _, PInf => PInf
  | NInf, _ | _, NInf => NInf
  end.

Definition nsub (x y : num) : num := nadd x (nneg y).

Definition nmul (x y : num) : num :=
  match x, y with
  | NaN, _ | _, NaN => NaN
  | Fin a, Fin b => Fin (Qred (a * b))
  | Fin a, PInf | PInf, Fin a =>
      if Qzero a then NaN else if Qneg a then NInf else PInf
  | Fin a, NInf | NInf, Fin a =>
      if Qzero a then NaN else if Qneg a then PInf else NInf
  | PInf, PInf | NInf, NInf => PInf
  | PInf, NInf | NInf, PInf => NInf
  end.

(** Float division as numpy performs it: no exception, a zero
    denominator gives NaN for 0/0 and an infinity otherwise. *)
Definition ndiv (x y : num) : num :=
  match x, y with
  | NaN, _ | _, NaN => NaN
  | Fin a, Fin b =>
      if Qzero b then
        if Qzero a then NaN else if Qneg a then NInf else PInf
      else Fin (Qred (a / b))
  | Fin _, _ => Fin 0
  | PInf, Fin b => if Qneg b then NInf else PInf
  | NInf, Fin b => if Qneg b then PInf else NInf
  | _, _ => NaN
  end.

(** [x <= y] on floats: false as soon as one side is NaN. *)
Definition nleb (x y : num) : bool :=
  match x, y with
  | NaN, _ | _, NaN => false
  | NInf, _ | _, PInf => true
  | Fin a, Fin b => Qle_bool a b
  | _, _ => false
  end.

(** Round half to even, to the nearest integer. *)
Definition rint (q : Q) : Z :=
  let n := Qnum q in
  let d := Zpos (Qden q) in
  let f := n / d in
  let r2 := 2 * (n - f * d) in
  if r2 <? d then f
  else if d <? r2 then f + 1
  else if Z.even f then f else f + 1.

(** [round(x, k)] for a finite value, with [p = 10^k]. *)
Definition round_to (p : positive) (q : Q) : Q :=
  Qred (rint (q * inject_Z (Zpos p)) # p).

Definition nround (p : positive) (x : num) : num :=
  match x with
  | Fin q => Fin (round_to p q)
  | _ => x
  end.

Definition round2 : num -> num := nround 100.
Definition round1 : num -> num := nround 10.

Definition fillna (d x : num) : num := if isna x then d else x.

Definition of_Z (z : Z) : num := Fin (inject_Z z).

(** [int(x)] on a finite value truncates toward zero. *)
Definition Qtrunc (q : Q) : Z := if Qneg q then Qceiling q else Qfloor q.

(** ** Column reductions *)

(** [Series.sum()] skips missing values; a cleaned column has none. *)
Definition Qsum (l : list Q) : Q := fold_right (fun x acc => Qred (x + acc)) 0%Q l.

Definition present {A} (l : list (option A)) : list A := omap id l.

(** [Series.mean()] skips missing values and is NaN when nothing is left. *)
Definition mean_opt (l : list (option Q)) : num :=
  match present l with
  | [] => NaN
  | v :: vs => Fin (Qred (Qsum (v :: vs) / inject_Z (Z.of_nat (length (v :: vs)))))
  end.

Definition mean (l : list Q) : num := mean_opt (map Some l).

Definition Qof_bool (b : bool) : Q := if b then 1%Q else 0%Q.

Fixpoint mem_str (s : string) (l : list string) : bool :=
  match l with
  | [] => false
  | x :: xs => String.eqb s x || mem_str s xs
  end.

Fixpoint distinct (l : list string) : list string :=
  match l with
  | [] => []
  | x :: xs => if mem_str x xs then distinct xs else x :: distinct xs
  end.

(** [Series.nunique()]: distinct values, missing ones not counted. *)
Definition nunique (l : list (option string)) : Z :=
  Z.of_nat (length (distinct (present l))).

(** [Series.cumsum()]: a missing entry stays missing and does not enter
    the running total. *)
Fixpoint cumsum_from (acc : num) (l : list num) : list num :=
  match l with
  | [] => []
  | x :: xs =>
      if isna x then NaN :: cumsum_from acc xs
      else let a := nadd acc x in a :: cumsum_from a xs
  end.

Fixpoint cumsum (l : list num) : list num :=
  match l with
  | [] => []
  | x :: xs => if isna x then NaN :: cumsum xs else x :: cumsum_from x xs
  end.

(** ** Dates *)

(** A timestamp, to the day: the views only read the month and the year
    of a date and compare dates with one another. *)
Record date : Type := mkdate { d_year : Z; d_month : Z; d_day : Z }.

Definition date_leb (a b : date) : bool :=
  (d_year a <? d_year b)
  || ((d_year a =? d_year b)
      && ((d_month a <? d_month b)
          || ((d_month a =? d_month b) && (d_day a <=? d_day b)))).

Definition month_abbr (m : Z) : string :=
  match m with
  | 1 => "Jan" | 2 => "Feb" | 3 => "Mar" | 4 => "Apr"
  | 5 => "May" | 6 => "Jun" | 7 => "Jul" | 8 => "Aug"
  | 9 => "Sep" | 10 => "Oct" | 11 => "Nov" | _ => "Dec"
  end.

Definition day_name (w : Z) : string :=
  match w with
  | 0 => "Monday" | 1 => "Tuesday" | 2 => "Wednesday" | 3 => "Thursday"
  | 4 => "Friday" | 5 => "Saturday" | _ => "Sunday"
  end.

(** Days since 1970-01-01 of a civil date, and the weekday with
    Monday = 0 as [dt.dayofweek] numbers it. *)
Definition days_from_civil (d : date) : Z :=
  let y := if d_month d <=? 2 then d_year d - 1 else d_year d in
  let era := y / 400 in
  let yoe := y - era * 400 in
  let mp := (d_month d + 9) mod 12 in
  let doy := (153 * mp + 2) / 5 + d_day d - 1 in
  let doe := yoe * 365 + yoe / 4 - yoe / 100 + doy in
  era * 146097 + doe - 719468.

Definition dayofweek (d : date) : Z := (days_from_civil d + 3) mod 7.

Definition two_digits (n : Z) : string :=
  if n <? 10 then "0" +:+ pretty n else pretty n.

(** [strftime('%b %Y')] *)
Definition strftime_b_Y (d : date) : string :=
  month_abbr (d_month d) +:+ " " +:+ pretty (d_year d).

(** [to_period('M').astype(str)] *)
Definition period_M (d : date) : string :=
  pretty (d_year d) +:+ "-" +:+ two_digits (d_month d).

(** [Series.min()] and [Series.max()] of a datetime column skip NaT and
    are NaT when no date is left. *)
Definition date_min (l : list (option date)) : option date :=
  fold_right (fun d acc =>
                match acc with
                | None => Some d
                | Some m => Some (if date_leb d m then d else m)
                end) None (present l).

Definition date_max (l : list (option date)) : option date :=
  fold_right (fun d acc =>
                match acc with
                | None => Some d
                | Some m => Some (if date_leb m d then d else m)
                end) None (present l).

(** ** The cleaned table *)

(** One row of the frame that [load_and_clean_data] returns, with the
    columns the views read.  The columns that the cleaning step fills
    are total; the ones it leaves alone may be missing ([None]), and so
    may the order date (NaT) and what is derived from it.  The measures
    are finite numbers, kept as exact rationals: an infinite value in a
    measure column (pandas reads the text "inf" as one) and a sum that
    overflows are outside this development. *)
Record record : Type := mkrecord {
  Order_Id : option string;
  Buyer_Email : option string;
  ProductName : option string;
  Channel : option string;
  Order_Status : option string;
  Category : string;
  Brand : string;
  Region : string;
  Country : string;
  Payment_Method : string;
  Courier : string;
  Revenue_USD : Q;
  Profit : Q;
  UnitsSold : Q;
  Shipping_Cost : Q;
  Refund_Amount : Q;
  DiscountRate : option Q;
  Payment_Fees : option Q;
  Days : option Q;
  (* the column headed "Days ", with its trailing blank *)
  Prime_Member : bool;
  IsLate : bool;
  OrderDate : option date;
  YearMonth : string;
  DayOfWeek : option Z;
  DayName : option string
}.

Abbreviation frame := (list record).

(** [df[df['Order_Status'] == 'Completed']] *)
Definition is_completed (r : record) : bool :=
  match Order_Status r with
  | Some s => String.eqb s "Completed"
  | None => false
  end.

Definition completed (df : frame) : frame := List.filter is_completed df.

(** ** Grouping and sorting *)

Class Key (K : Type) : Type := {
  key_eqb : K -> K -> bool;
  key_leb : K -> K -> bool
}.

#[global] Instance string_Key : Key string :=
  {| key_eqb := String.eqb; key_leb := String.leb |}.

#[global] Instance Z_Key : Key Z :=
  {| key_eqb := Z.eqb; key_leb := Z.leb |}.

#[global] Instance bool_Key : Key bool :=
  {| key_eqb := Bool.eqb; key_leb := fun a b => implb a b |}.

#[global] Instance prod_Key {K1 K2} `{Key K1} `{Key K2} : Key (K1 * K2) :=
  {| key_eqb := fun a b => key_eqb (fst a) (fst b) && key_eqb (snd a) (snd b);
     key_leb := fun a b =>
       if key_eqb (fst a) (fst b) then key_leb (snd a) (snd b)
       else key_leb (fst a) (fst b) |}.

Section Groupby.
Context {K : Type} `{Key K}.

Fixpoint insert_key (k : K) (ks : list K) : list K :=
  match ks with
  | [] => [k]
  | k' :: ks' =>
      if key_eqb k k' then ks
      else if key_leb k k' then k :: ks
      else k' :: insert_key k ks'
  end.

(** The distinct keys, in increasing order. *)
Definition group_keys (ks : list K) : list K := fold_right insert_key [] ks.

Definition has_key (key : record -> option K) (k : K) (r : record) : bool :=
  match key r with
  | Some k' => key_eqb k k'
  | None => false
  end.

(** [df.groupby(key)]: one group per distinct key, keys sorted, rows
    with a missing key dropped, rows of a group in frame order. *)
Definition groupby (key : record -> option K) (df : frame) : list (K * frame) :=
  map (fun k => (k, List.filter (has_key key k) df))
      (group_keys (omap key df)).

(** Strictly before, in the order of the keys. *)
Definition key_lt (a b : K) : Prop := key_leb a b = true /\ key_eqb a b = false.
End Groupby.

Section Sort.
Context {A : Type} (before : A -> A -> bool).

Fixpoint insert_sorted (x : A) (l : list A) : list A :=
  match l with
  | [] => [x]
  | y :: l' => if before x y then x :: l else y :: insert_sorted x l'
  end.

(** [sort_values]: here rows with equal keys keep their order; the
    default sort of pandas does not promise an order among them. *)
Definition sort_values (l : list A) : list A := fold_right insert_sorted [] l.
End Sort.

Definition desc {A} (f : A -> Q) (x y : A) : bool := Qle_bool (f y) (f x).
Definition descZ {A} (f : A -> Z) (x y : A) : bool := f y <=? f x.
Definition ascZ {A} (f : A -> Z) (x y : A) : bool := f x <=? f y.

(** [nlargest(n, col)]: the [n] rows with the largest value, largest
    first, the earlier row first among equal values. *)
Definition nlargest {A} (n : nat) (f : A -> Q) (l : list A) : list A :=
  firstn n (sort_values (desc f) l).

(** Shorthands for the aggregates of a group. *)
Definition sum_of (f : record -> Q) (g : frame) : Q := Qsum (map f g).
Definition sum2 (f : record -> Q) (g : frame) : Q := round_to 100 (sum_of f g).
Definition orders_of (g : frame) : Z := nunique (map Order_Id g).
Definition customers_of (g : frame) : Z := nunique (map Buyer_Email g).
Definition pct (x total : num) : num := round2 (nmul (ndiv x total) (of_Z 100)).

(** ** KPI summary *)

Record kpis : Type := mkkpis {
  total_revenue : num;
  total_profit : num;
  total_orders : Z;
  total_units_sold : Z;
  avg_order_value : num;
  profit_margin : num;
  unique_customers : Z;
  prime_member_pct : num;
  late_delivery_pct : num;
  unique_products : Z;
  unique_countries : Z;
  avg_discount_rate : num;
  data_period : string
}.

(** [strftime] on NaT raises: without any order date in the frame there
    is no period label and no summary.  On a frame of records this is
    the only exception of the summary; a cleaned frame in which a
    column of the views is not there, or holds a text where numbers are
    added up, is no frame of records (see [frame_of]). *)
Definition data_period_of (df : frame) : option string :=
  match date_min (map OrderDate df), date_max (map OrderDate df) with
  | Some lo, Some hi => Some (strftime_b_Y lo +:+ " - " +:+ strftime_b_Y hi)
  | _, _ => None
  end.

Definition calculate_kpis (df : frame) : option kpis :=
  let completed_df := completed df in
  match data_period_of df with
  | None => None
  | Some period =>
      Some {|
        total_revenue := round2 (Fin (sum_of Revenue_USD completed_df));
        total_profit := round2 (Fin (sum_of Profit completed_df));
        total_orders := nunique (map Order_Id completed_df);
        total_units_sold := Qtrunc (sum_of UnitsSold completed_df);
        avg_order_value := round2 (mean (map Revenue_USD completed_df));
        profit_margin :=
          round2 (nmul (ndiv (Fin (sum_of Profit completed_df))
                             (Fin (sum_of Revenue_USD completed_df)))
                       (of_Z 100));
        unique_customers := nunique (map Buyer_Email completed_df);
        prime_member_pct :=
          round2 (nmul (mean (map (fun r => Qof_bool (Prime_Member r)) completed_df))
                       (of_Z 100));
        late_delivery_pct :=
          round2 (nmul (mean (map (fun r => Qof_bool (IsLate r)) completed_df))
                       (of_Z 100));
        unique_products := nunique (map ProductName completed_df);
        unique_countries := nunique (map (fun r => Some (Country r)) completed_df);
        avg_discount_rate :=
          round2 (nmul (mean_opt (map DiscountRate completed_df)) (of_Z 100));
        data_period := period
      |}
  end.

(** ** Monthly trend *)

Record monthly_row : Type := mkmonthly {
  mt_month : string;
  mt_revenue : Q;
  mt_profit : Q;
  mt_orders : Z;
  mt_units : Q;
  mt_revenue_growth : num;
  mt_revenue_ma3 : num
}.

(** [Series.pct_change()]: the first entry has no predecessor. *)
Fixpoint pct_change_from (prev : Q) (l : list Q) : list num :=
  match l with
  | [] => []
  | x :: xs => nsub (ndiv (Fin x) (Fin prev)) (Fin 1) :: pct_change_from x xs
  end.

Definition pct_change (l : list Q) : list num :=
  match l with
  | [] => []
  | x :: xs => NaN :: pct_change_from x xs
  end.

(** [rolling(window=3).mean()]: missing until three values are there. *)
Fixpoint rolling3_from (a b : Q) (l : list Q) : list num :=
  match l with
  | [] => []
  | c :: xs => Fin (Qred ((a + b + c) / 3)) :: rolling3_from b c xs
  end.

Definition rolling3_mean (l : list Q) : list num :=
  match l with
  | [] => []
  | [a] => [NaN]
  | a :: b :: xs => NaN :: NaN :: rolling3_from a b xs
  end.

Definition calculate_monthly_trends (df : frame) : list monthly_row :=
  let completed_df := completed df in
  let monthly := groupby (fun r => Some (YearMonth r)) completed_df in
  let revenue := map (fun g => sum2 Revenue_USD (snd g)) monthly in
  let revenue_growth :=
    map (fun x => fillna (Fin 0) (round2 (nmul x (of_Z 100)))) (pct_change revenue) in
  let revenue_ma3 :=
    zip_with (fun m x => if isna m then Fin x else m)
             (map round2 (rolling3_mean revenue)) revenue in
  zip_with (fun g d =>
              {| mt_month := fst g;
                 mt_revenue := sum2 Revenue_USD (snd g);
                 mt_profit := sum2 Profit (snd g);
                 mt_orders := orders_of (snd g);
                 mt_units := sum_of UnitsSold (snd g);
                 mt_revenue_growth := fst d;
                 mt_revenue_ma3 := snd d |})
           monthly (zip revenue_growth revenue_ma3).

(** ** Category performance *)

Record category_row : Type := mkcategory {
  cp_category : string;
  cp_revenue : Q;
  cp_profit : Q;
  cp_orders : Z;
  cp_units : Q;
  cp_profit_margin : num;
  cp_revenue_share : num;
  cp_cumulative_share : num;
  cp_pareto_class : string
}.

Definition pareto_class (x : num) : string :=
  if nleb x (of_Z 80) then "Top Performer" else "Supporting".

(** The grouped frame, before it is sorted and the Pareto columns are
    added. *)
Record category_agg : Type := mkcategory_agg {
  ca_category : string;
  ca_revenue : Q;
  ca_profit : Q;
  ca_orders : Z;
  ca_units : Q;
  ca_profit_margin : num;
  ca_revenue_share : num
}.

Definition category_table (df : frame) : list category_agg :=
  let category := groupby (fun r => Some (Category r)) (completed df) in
  let total := Qsum (map (fun g => sum2 Revenue_USD (snd g)) category) in
  map (fun g =>
         {| ca_category := fst g;
            ca_revenue := sum2 Revenue_USD (snd g);
            ca_profit := sum2 Profit (snd g);
            ca_orders := orders_of (snd g);
            ca_units := sum_of UnitsSold (snd g);
            ca_profit_margin :=
              pct (Fin (sum2 Profit (snd g))) (Fin (sum2 Revenue_USD (snd g)));
            ca_revenue_share := pct (Fin (sum2 Revenue_USD (snd g))) (Fin total) |})
      category.

Definition with_pareto (rows : list category_agg) : list category_row :=
  zip_with (fun r c =>
              {| cp_category := ca_category r;
                 cp_revenue := ca_revenue r;
                 cp_profit := ca_profit r;
                 cp_orders := ca_orders r;
                 cp_units := ca_units r;
                 cp_profit_margin := ca_profit_margin r;
                 cp_revenue_share := ca_revenue_share r;
                 cp_cumulative_share := c;
                 cp_pareto_class := pareto_class c |})
           rows (cumsum (map ca_revenue_share rows)).

Definition calculate_category_performance (df : frame) : list category_row :=
  with_pareto (sort_values (desc ca_revenue) (category_table df)).

(** ** Regional performance *)

Record regional_row : Type := mkregional {
  rp_region : string;
  rp_country : string;
  rp_revenue : Q;
  rp_profit : Q;
  rp_orders : Z;
  rp_customers : Z;
  rp_avg_order_value : num;
  rp_revenue_per_customer : num
}.

Definition calculate_regional_performance (df : frame) : list regional_row :=
  let completed_df := completed df in
  map (fun g =>
         {| rp_region := fst (fst g);
            rp_country := snd (fst g);
            rp_revenue := sum2 Revenue_USD (snd g);
            rp_profit := sum2 Profit (snd g);
            rp_orders := orders_of (snd g);
            rp_customers := customers_of (snd g);
            rp_avg_order_value :=
              round2 (ndiv (Fin (sum2 Revenue_USD (snd g))) (of_Z (orders_of (snd g))));
            rp_revenue_per_customer :=
              round2 (ndiv (Fin (sum2 Revenue_USD (snd g))) (of_Z (customers_of (snd g)))) |})
      (groupby (fun r => Some (Region r, Country r)) completed_df).

(** ** Channel performance *)

Record channel_row : Type := mkchannel {
  ch_channel : string;
  ch_revenue : Q;
  ch_profit : Q;
  ch_orders : Z;
  ch_units : Q;
  ch_market_share : num
}.

Definition channel_table (df : frame) : list channel_row :=
  let channel := groupby Channel (completed df) in
  let total := Qsum (map (fun g => sum2 Revenue_USD (snd g)) channel) in
  map (fun g =>
         {| ch_channel := fst g;
            ch_revenue := sum2 Revenue_USD (snd g);
            ch_profit := sum2 Profit (snd g);
            ch_orders := orders_of (snd g);
            ch_units := sum_of UnitsSold (snd g);
            ch_market_share := pct (Fin (sum2 Revenue_USD (snd g))) (Fin total) |})
      channel.

Definition calculate_channel_performance (df : frame) : list channel_row :=
  sort_values (desc ch_revenue) (channel_table df).

(** ** Payment analysis *)

Record payment_row : Type := mkpayment {
  pa_payment_method : string;
  pa_revenue : Q;
  pa_avg_order_value : num;
  pa_orders : Z;
  pa_fees : Q;
  pa_share : num
}.

Definition payment_table (df : frame) : list payment_row :=
  let payment := groupby (fun r => Some (Payment_Method r)) (completed df) in
  let total := Qsum (map (fun g => sum2 Revenue_USD (snd g)) payment) in
  map (fun g =>
         {| pa_payment_method := fst g;
            pa_revenue := sum2 Revenue_USD (snd g);
            pa_avg_order_value := round2 (mean (map Revenue_USD (snd g)));
            pa_orders := orders_of (snd g);
            pa_fees := round_to 100 (Qsum (present (map Payment_Fees (snd g))));
            pa_share := pct (Fin (sum2 Revenue_USD (snd g))) (Fin total) |})
      payment.

Definition calculate_payment_analysis (df : frame) : list payment_row :=
  sort_values (desc pa_revenue) (payment_table df).

(** ** Day-of-week pattern *)

Record day_row : Type := mkday {
  dw_day_num : Z;
  dw_day_name : string;
  dw_revenue : Q;
  dw_orders : Z;
  dw_avg_revenue : num;
  dw_index : num
}.

Definition day_key (r : record) : option (Z * string) :=
  match DayOfWeek r, DayName r with
  | Some n, Some s => Some (n, s)
  | _, _ => None
  end.

Definition day_table (df : frame) : list day_row :=
  let daily := groupby day_key (completed df) in
  let avg_revenue := mean (map (fun g => sum2 Revenue_USD (snd g)) daily) in
  map (fun g =>
         {| dw_day_num := fst (fst g);
            dw_day_name := snd (fst g);
            dw_revenue := sum2 Revenue_USD (snd g);
            dw_orders := orders_of (snd g);
            dw_avg_revenue :=
              round2 (ndiv (Fin (sum2 Revenue_USD (snd g))) (of_Z (orders_of (snd g))));
            dw_index := pct (Fin (sum2 Revenue_USD (snd g))) avg_revenue |})
      daily.

Definition calculate_day_of_week_analysis (df : frame) : list day_row :=
  sort_values (ascZ dw_day_num) (day_table df).

(** ** Prime against non-Prime *)

Record prime_row : Type := mkprime {
  pr_is_prime : string;
  pr_revenue : Q;
  pr_avg_order_value : num;
  pr_profit : Q;
  pr_orders : Z;
  pr_customers : Z;
  pr_units : Q;
  pr_orders_per_customer : num;
  pr_revenue_per_customer : num
}.

Definition calculate_prime_analysis (df : frame) : list prime_row :=
  let completed_df := completed df in
  map (fun g =>
         {| pr_is_prime := if (fst g : bool) then "Prime" else "Non-Prime";
            pr_revenue := sum2 Revenue_USD (snd g);
            pr_avg_order_value := round2 (mean (map Revenue_USD (snd g)));
            pr_profit := sum2 Profit (snd g);
            pr_orders := orders_of (snd g);
            pr_customers := customers_of (snd g);
            pr_units := sum_of UnitsSold (snd g);
            pr_orders_per_customer :=
              round2 (ndiv (of_Z (orders_of (snd g))) (of_Z (customers_of (snd g))));
            pr_revenue_per_customer :=
              round2 (ndiv (Fin (sum2 Revenue_USD (snd g))) (of_Z (customers_of (snd g)))) |})
      (groupby (fun r => Some (Prime_Member r)) completed_df).

(** ** Shipping performance *)

Record shipping_row : Type := mkshipping {
  sh_courier : string;
  sh_shipments : Z;
  sh_late_count : Z;
  sh_late_rate : num;
  sh_avg_cost : num;
  sh_avg_days : num;
  sh_on_time_rate : num
}.

Definition late_rate_of (g : frame) : num :=
  round2 (nmul (mean (map (fun r => Qof_bool (IsLate r)) g)) (of_Z 100)).

Definition shipping_table (df : frame) : list shipping_row :=
  map (fun g =>
         {| sh_courier := fst g;
            sh_shipments := orders_of (snd g);
            sh_late_count := Z.of_nat (length (List.filter IsLate (snd g)));
            sh_late_rate := late_rate_of (snd g);
            sh_avg_cost := round2 (mean (map Shipping_Cost (snd g)));
            sh_avg_days := round1 (mean_opt (map Days (snd g)));
            sh_on_time_rate := round2 (nsub (of_Z 100) (late_rate_of (snd g))) |})
      (groupby (fun r => Some (Courier r)) (completed df)).

Definition calculate_shipping_performance (df : frame) : list shipping_row :=
  firstn 10 (sort_values (descZ sh_shipments) (shipping_table df)).

(** ** Top products *)

Record product_row : Type := mkproduct {
  tp_product : string;
  tp_category : string;
  tp_brand : string;
  tp_revenue : Q;
  tp_profit : Q;
  tp_units : Q;
  tp_orders : Z;
  tp_profit_margin : num
}.

Definition product_key (r : record) : option (string * string * string) :=
  match ProductName r with
  | Some p => Some (p, Category r, Brand r)
  | None => None
  end.

Definition product_table (df : frame) : list product_row :=
  map (fun g =>
         {| tp_product := fst (fst (fst g));
            tp_category := snd (fst (fst g));
            tp_brand := snd (fst g);
            tp_revenue := sum2 Revenue_USD (snd g);
            tp_profit := sum2 Profit (snd g);
            tp_units := sum_of UnitsSold (snd g);
            tp_orders := orders_of (snd g);
            tp_profit_margin :=
              pct (Fin (sum2 Profit (snd g))) (Fin (sum2 Revenue_USD (snd g))) |})
      (groupby product_key (completed df)).

Definition calculate_top_products (df : frame) : list product_row :=
  nlargest 20 tp_revenue (product_table df).

(** ** Top brands *)

Record brand_row : Type := mkbrand {
  tb_brand : string;
  tb_revenue : Q;
  tb_profit : Q;
  tb_units : Q;
  tb_orders : Z;
  tb_market_share : num
}.

Definition brand_table (df : frame) : list brand_row :=
  let brands := groupby (fun r => Some (Brand r)) (completed df) in
  let total := Qsum (map (fun g => sum2 Revenue_USD (snd g)) brands) in
  map (fun g =>
         {| tb_brand := fst g;
            tb_revenue := sum2 Revenue_USD (snd g);
            tb_profit := sum2 Profit (snd g);
            tb_units := sum_of UnitsSold (snd g);
            tb_orders := orders_of (snd g);
            tb_market_share := pct (Fin (sum2 Revenue_USD (snd g))) (Fin total) |})
      brands.

Definition calculate_top_brands (df : frame) : list brand_row :=
  nlargest 15 tb_revenue (brand_table df).

(** ** Order status distribution *)

Record status_row : Type := mkstatus {
  os_status : string;
  os_orders : Z;
  os_revenue : Q;
  os_refunds : Q;
  os_order_share : num
}.

Definition Zsum (l : list Z) : Z := fold_right Z.add 0 l.

(** The only view that reads the whole frame. *)
Definition calculate_order_status_distribution (df : frame) : list status_row :=
  let status := groupby Order_Status df in
  let total := Zsum (map (fun g => orders_of (snd g)) status) in
  map (fun g =>
         {| os_status := fst g;
            os_orders := orders_of (snd g);
            os_revenue := sum2 Revenue_USD (snd g);
            os_refunds := sum2 Refund_Amount (snd g);
            os_order_share := pct (of_Z (orders_of (snd g))) (of_Z total) |})
      status.

(** ** The assembled document *)

Inductive value : Type :=
| VString (s : string)
| VKpis (k : kpis)
| VMonthly (rows : list monthly_row)
| VCategory (rows : list category_row)
| VRegional (rows : list regional_row)
| VChannel (rows : list channel_row)
| VPayment (rows : list payment_row)
| VDay (rows : list day_row)
| VPrime (rows : list prime_row)
| VShipping (rows : list shipping_row)
| VProducts (rows : list product_row)
| VBrands (rows : list brand_row)
| VStatus (rows : list status_row).

(** The dictionary [dashboard_data] that [main] builds from the cleaned
    frame [df]; [now] stands for [datetime.now().isoformat()].  The
    summary is computed first, so when it raises nothing is built.  On
    a frame of records no other view raises. *)
Definition main (now : string) (df : frame) : option (list (string * value)) :=
  match calculate_kpis df with
  | None => None
  | Some kpis =>
      let monthly_trends := calculate_monthly_trends df in
      let category_performance := calculate_category_performance df in
      let regional_performance := calculate_regional_performance df in
      let channel_performance := calculate_channel_performance df in
      let payment_analysis := calculate_payment_analysis df in
      let day_analysis := calculate_day_of_week_analysis df in
      let prime_analysis := calculate_prime_analysis df in
      let shipping_performance := calculate_shipping_performance df in
      let top_products := calculate_top_products df in
      let top_brands := calculate_top_brands df in
      let order_status := calculate_order_status_distribution df in
      Some [ ("generated_at", VString now);
             ("kpis", VKpis kpis);
             ("monthly_trends", VMonthly monthly_trends);
             ("category_performance", VCategory category_performance);
             ("regional_performance", VRegional regional_performance);
             ("channel_performance", VChannel channel_performance);
             ("payment_analysis", VPayment payment_analysis);
             ("day_of_week", VDay day_analysis);
             ("prime_analysis", VPrime prime_analysis);
             ("shipping_performance", VShipping shipping_performance);
             ("top_products", VProducts top_products);
             ("top_brands", VBrands top_brands);
             ("order_status", VStatus order_status) ]
  end.



(** ** The raw table and the cleaning step *)

(** A cell of the sheet as [read_excel] hands it over: missing (NaN,
    None or NaT), text, a number, a truth value or a timestamp. *)
Inductive cell : Type :=
| CNull
| CStr (s : string)
| CNum (q : Q)
| CBool (b : bool)
| CDate (d : date).

(** A data frame: its columns by name.  [df[name]] on a column that is
    not there raises [KeyError]. *)
Abbreviation DataFrame := (gmap string (list cell)).

(** [Series.fillna(v)] *)
Definition fillna_cell (v c : cell) : cell :=
  match c with
  | CNull => v
  | _ => c
  end.

(** [bool(x)], as [astype(bool)] applies it to the values of a column. *)
Definition truthy (c : cell) : bool :=
  match c with
  | CNull => true
  | CStr s => negb (String.eqb s "")
  | CNum q => negb (Qzero q)
  | CBool b => b
  | CDate _ => true
  end.

Definition astype_bool (c : cell) : cell := CBool (truthy c).

Definition lower_ascii (a : ascii) : ascii :=
  let n := N_of_ascii a in
  if ((65 <=? n) && (n <=? 90))%N then ascii_of_N (n + 32) else a.

Fixpoint lower (s : string) : string :=
  match s with
  | EmptyString => EmptyString
  | String a s' => String (lower_ascii a) (lower s')
  end.

(** [lambda x: True if str(x).lower() == 'yes' else False]: only a text
    can print as "yes". *)
Definition is_late (c : cell) : cell :=
  match c with
  | CStr s => CBool (String.eqb (lower s) "yes")
  | _ => CBool false
  end.

(** Calendar columns, read off a datetime column ([CDate] or NaT). *)
Definition year_of (c : cell) : cell :=
  match c with CDate d => CNum (inject_Z (d_year d)) | _ => CNull end.

Definition month_of (c : cell) : cell :=
  match c with CDate d => CNum (inject_Z (d_month d)) | _ => CNull end.

Definition month_name_of (c : cell) : cell :=
  match c with CDate d => CStr (month_abbr (d_month d)) | _ => CNull end.

Definition dayofweek_of (c : cell) : cell :=
  match c with CDate d => CNum (inject_Z (dayofweek d)) | _ => CNull end.

Definition day_name_of (c : cell) : cell :=
  match c with CDate d => CStr (day_name (dayofweek d)) | _ => CNull end.

Definition year_month_of (c : cell) : cell :=
  match c with CDate d => CStr (period_M d) | _ => CStr "NaT" end.

(** [df[name] = g(df[name])], where [g] may raise. *)
Definition update_col (name : string) (g : list cell -> option (list cell))
    (df : DataFrame) : option DataFrame :=
  c ← df !! name; c' ← g c; Some (<[name := c']> df).

(** [df[dst] = df[src].map(f)] *)
Definition derive_col (src dst : string) (f : cell -> cell)
    (df : DataFrame) : option DataFrame :=
  c ← df !! src; Some (<[dst := f <$> c]> df).

Definition numeric_cols : list string :=
  ["Revenue_USD"; "Profit"; "UnitsSold"; "UnitPrice"; "Shipping_Cost";
   "TaxAmount"; "DiscountAmount"; "Refund_Amount"].

Section Normalizer.
(** What pandas reads out of a text: a number for [to_numeric], a
    timestamp for [to_datetime]; and the timestamp that [to_datetime]
    makes of a number.  [None] is a value that does not convert.  The
    numbers are finite: a text that pandas reads as an infinity is
    outside this development. *)
Variable parse_numeric : string -> option Q.
Variable parse_datetime : string -> option date.
Variable datetime_of_number : Q -> option date.

(** [pd.to_numeric(_, errors='coerce')] on one value. *)
Definition to_numeric (c : cell) : cell :=
  match c with
  | CNum q => CNum q
  | CStr s => match parse_numeric s with Some q => CNum q | None => CNull end
  | CBool b => CNum (Qof_bool b)
  | CNull | CDate _ => CNull
  end.

(** [pd.to_datetime(_)] on one value; [None] when it raises. *)
Definition to_datetime (c : cell) : option cell :=
  match c with
  | CNull => Some CNull
  | CDate d => Some (CDate d)
  | CStr s => CDate <$> parse_datetime s
  | CNum q => CDate <$> datetime_of_number q
  | CBool _ => None
  end.

(** [pd.to_datetime(_, errors='coerce')] on one value. *)
Definition to_datetime_coerce (c : cell) : cell :=
  match to_datetime c with
  | Some c' => c'
  | None => CNull
  end.

Definition clean_numeric (c : cell) : cell := fillna_cell (CNum 0) (to_numeric c).

(** [if col in df.columns: df[col] = to_numeric(df[col]).fillna(0)] *)
Definition clean_numeric_col (df : DataFrame) (col : string) : DataFrame :=
  match df !! col with
  | Some c => <[col := clean_numeric <$> c]> df
  | None => df
  end.

Definition load_and_clean_data (df : DataFrame) : option DataFrame :=
  df ← derive_col "Category" "Category" (fillna_cell (CStr "Unknown")) df;
  df ← derive_col "Brand" "Brand" (fillna_cell (CStr "Unknown Brand")) df;
  df ← derive_col "Region" "Region" (fillna_cell (CStr "Unknown")) df;
  df ← derive_col "Country" "Country" (fillna_cell (CStr "Unknown")) df;
  df ← derive_col "Payment_Method" "Payment_Method" (fillna_cell (CStr "Unknown")) df;
  df ← derive_col "Courier" "Courier" (fillna_cell (CStr "Unknown")) df;
  df ← update_col "OrderDate" (mapM to_datetime) df;
  df ← derive_col "Shipping_Date" "Shipping_Date" to_datetime_coerce df;
  df ← derive_col "Expected_Delivery_Date" "Expected_Delivery_Date"
         to_datetime_coerce df;
  df ← Some (foldl clean_numeric_col df numeric_cols);
  df ← derive_col "Prime_Member" "Prime_Member"
         (fun c => astype_bool (fillna_cell (CNum 0) c)) df;
  df ← derive_col "Late Deliveries?" "Late Deliveries?" (fillna_cell (CStr "No")) df;
  df ← derive_col "Late Deliveries?" "IsLate" is_late df;
  df ← derive_col "OrderDate" "Year" year_of df;
  df ← derive_col "OrderDate" "Month" month_of df;
  df ← derive_col "OrderDate" "MonthName" month_name_of df;
  df ← derive_col "OrderDate" "DayOfWeek" dayofweek_of df;
  df ← derive_col "OrderDate" "DayName" day_name_of df;
  df ← derive_col "OrderDate" "YearMonth" year_month_of df;
  Some df.

(** A numeric column on which cleaning has nothing left to do. *)
Definition Cleaned (df : DataFrame) (col : string) : Prop :=
  forall l, df !! col = Some l -> clean_numeric <$> l = l.
End Normalizer.

(** ** Reading the cleaned table *)











(** ** Vocabulary of the statements *)

(** The share of a finite amount [a] in a positive total [t], as [pct]
    computes it. *)
Definition share_of (t a : Q) : Q := round_to 100 (Qred (Qred (a / t) * inject_Z 100)).

(** The sum of the [revenue_share] column of the category view. *)
Definition share_total (rows : list category_row) : num :=
  fold_right nadd (Fin 0) (map cp_revenue_share rows).




(** What the cleaning step makes of a raw prime-member value [x]: a truth
    value, false exactly for a missing value, [False], the empty text
    and zero. *)
Definition prime_coerced (x y : cell) : Prop :=
  exists b, y = CBool b
    /\ (b = false <->
        x = CNull \/ x = CBool false \/ x = CStr ""
        \/ exists q, x = CNum q /\ (q == 0)%Q).

(** ** Sample data *)

(** An order line with the calendar columns that the cleaning step
    derives from its date. *)
Definition sample_order (id status category : string) (revenue profit : Q) (d : date)
  : record :=
  {| Order_Id := Some id;
     Buyer_Email := Some "buyer@example.com";
     ProductName := Some "Item";
     Channel := Some "Web";
     Order_Status := Some status;
     Category := category;
     Brand := "Unknown Brand";
     Region := "US";
     Country := "US";
     Payment_Method := "Unknown";
     Courier := "Unknown";
     Revenue_USD := revenue;
     Profit := profit;
     UnitsSold := 1;
     Shipping_Cost := 0;
     Refund_Amount := 0;
     DiscountRate := None;
     Payment_Fees := None;
     Days := None;
     Prime_Member := false;
     IsLate := false;
     OrderDate := Some d;
     YearMonth := period_M d;
     DayOfWeek := Some (dayofweek d);
     DayName := Some (day_name (dayofweek d)) |}.

(** The same order line with a missing order date (NaT). *)
Definition undated_order (id status category : string) (revenue profit : Q) : record :=
  {| Order_Id := Some id;
     Buyer_Email := Some "buyer@example.com";
     ProductName := Some "Item";
     Channel := Some "Web";
     Order_Status := Some status;
     Category := category;
     Brand := "Unknown Brand";
     Region := "US";
     Country := "US";
     Payment_Method := "Unknown";
     Courier := "Unknown";
     Revenue_USD := revenue;
     Profit := profit;
     UnitsSold := 1;
     Shipping_Cost := 0;
     Refund_Amount := 0;
     DiscountRate := None;
     Payment_Fees := None;
     Days := None;
     Prime_Member := false;
     IsLate := false;
     OrderDate := None;
     YearMonth := "NaT";
     DayOfWeek := None;
     DayName := None |}.

Definition january_order : record :=
  sample_order "A1" "Completed" "Books" 100 20 (mkdate 2024 1 15).

Definition february_order : record :=
  sample_order "A3" "Completed" "Toys" 60 15 (mkdate 2024 2 20).

(** A completed order of March. *)
Definition march_order : record :=
  sample_order "A4" "Completed" "Toys" 90 30 (mkdate 2024 3 5).

Definition cancelled_march_order : record :=
  sample_order "A2" "Cancelled" "Books" 50 10 (mkdate 2024 3 3).



Definition free_order : record :=
  sample_order "C2" "Completed" "Books" 0 0 (mkdate 2024 2 3).

Definition refund_order : record :=
  sample_order "C3" "Completed" "Toys" (-50) 0 (mkdate 2024 2 4).

(** Stand-ins for the parsers of pandas, for the examples: unsigned
    decimal integers and dates written YYYY-MM-DD. *)
Fixpoint digits_value (acc : Z) (s : string) : option Z :=
  match s with
  | EmptyString => Some acc
  | String a s' =>
      let n := Z.of_N (N_of_ascii a) in
      if (48 <=? n) && (n <=? 57) then digits_value (10 * acc + (n - 48)) s'
      else None
  end.

Definition parse_unsigned (s : string) : option Z :=
  match s with
  | EmptyString => None
  | _ => digits_value 0 s
  end.

Definition example_parse_numeric (s : string) : option Q :=
  inject_Z <$> parse_unsigned s.

Definition example_parse_datetime (s : string) : option date :=
  if (Nat.eqb (String.length s) 10)
     && String.eqb (substring 4 1 s) "-" && String.eqb (substring 7 1 s) "-"
  then
    y ← parse_unsigned (substring 0 4 s);
    m ← parse_unsigned (substring 5 2 s);
    d ← parse_unsigned (substring 8 2 s);
    Some (mkdate y m d)
  else None.

Definition example_datetime_of_number (q : Q) : option date := None.

Definition raw_example : DataFrame :=
  list_to_map
    [ ("Category", [CStr "Books"; CNull]);
      ("Brand", [CNull; CStr "Acme"]);
      ("Region", [CStr "EU"; CStr "US"]);
      ("Country", [CNull; CStr "US"]);
      ("Payment_Method", [CStr "Card"; CNull]);
      ("Courier", [CNull; CNull]);
      ("OrderDate", [CStr "2024-03-09"; CDate (mkdate 2023 12 31)]);
      ("Shipping_Date", [CStr "soon"; CNull]);
      ("Expected_Delivery_Date", [CDate (mkdate 2024 3 12); CBool true]);
      ("Revenue_USD", [CStr "12"; CNull]);
      ("Profit", [CNum (3 # 2); CStr "n/a"]);
      ("UnitsSold", [CNum 2; CBool true]);
      ("Refund_Amount", [CNull; CStr "75"]);
      ("Prime_Member", [CStr "No"; CNull]);
      ("Late Deliveries?", [CStr "YES"; CNull]) ].

(** What the cleaning step makes of [raw_example]. *)
Definition cleaned_example : DataFrame :=
  list_to_map
    [ ("Category", [CStr "Books"; CStr "Unknown"]);
      ("Brand", [CStr "Unknown Brand"; CStr "Acme"]);
      ("Region", [CStr "EU"; CStr "US"]);
      ("Country", [CStr "Unknown"; CStr "US"]);
      ("Payment_Method", [CStr "Card"; CStr "Unknown"]);
      ("Courier", [CStr "Unknown"; CStr "Unknown"]);
      ("OrderDate", [CDate (mkdate 2024 3 9); CDate (mkdate 2023 12 31)]);
      ("Shipping_Date", [CNull; CNull]);
      ("Expected_Delivery_Date", [CDate (mkdate 2024 3 12); CNull]);
      ("Revenue_USD", [CNum 12; CNum 0]);
      ("Profit", [CNum (3 # 2); CNum 0]);
      ("UnitsSold", [CNum 2; CNum 1]);
      ("Refund_Amount", [CNum 0; CNum 75]);
      ("Prime_Member", [CBool true; CBool false]);
      ("Late Deliveries?", [CStr "YES"; CStr "No"]);
      ("IsLate", [CBool true; CBool false]);
      ("Year", [CNum 2024; CNum 2023]);
      ("Month", [CNum 3; CNum 12]);
      ("MonthName", [CStr "Mar"; CStr "Dec"]);
      ("DayOfWeek", [CNum 5; CNum 6]);
      ("DayName", [CStr "Saturday"; CStr "Sunday"]);
      ("YearMonth", [CStr "2024-03"; CStr "2023-12"]) ].


Definition derived_columns : list string :=
  ["IsLate"; "Year"; "Month"; "MonthName"; "DayOfWeek"; "DayName"; "YearMonth"].





(** ** Vocabulary of the further statements *)

(** The sum of a column of floats of a result frame. *)
Definition nsum (l : list num) : num := fold_right nadd (Fin 0) l.

(** The columns that [load_and_clean_data] reads without asking whether
    they are there. *)
Definition mandatory_columns : list string :=
  ["Category"; "Brand"; "Region"; "Country"; "Payment_Method"; "Courier";
   "OrderDate"; "Shipping_Date"; "Expected_Delivery_Date"; "Prime_Member";
   "Late Deliveries?"].

(** The columns that [load_and_clean_data] writes. *)
Definition written_columns : list string :=
  mandatory_columns ++ numeric_cols ++ derived_columns.

(** Kinds of cells. *)
Definition is_null (c : cell) : bool :=
  match c with CNull => true | _ => false end.

Definition is_number (c : cell) : bool :=
  match c with CNum _ => true | _ => false end.

Definition is_truth_value (c : cell) : bool :=
  match c with CBool _ => true | _ => false end.

Definition is_timestamp_or_null (c : cell) : bool :=
  match c with CDate _ | CNull => true | _ => false end.

(** Every column of the frame has [n] rows. *)
Definition Rows (n : nat) (df : DataFrame) : Prop :=
  forall k c, df !! k = Some c -> length c = n.

(** The columns that the cleaning step fills, the calendar columns that
    it adds and the date columns that it converts. *)
Definition filled_columns : list string :=
  ["Category"; "Brand"; "Region"; "Country"; "Payment_Method"; "Courier";
   "Late Deliveries?"].

Definition calendar_columns : list string :=
  ["Year"; "Month"; "MonthName"; "DayOfWeek"; "DayName"; "YearMonth"].

Definition date_columns : list string :=
  ["OrderDate"; "Shipping_Date"; "Expected_Delivery_Date"].

(** The spellings of "yes". *)
Definition yes_spellings : list string :=
  ["yes"; "yeS"; "yEs"; "yES"; "Yes"; "YeS"; "YEs"; "YES"].

(** The late flag [y] of a raw late indicator [x]. *)
Definition late_flag (x y : cell) : Prop :=
  exists b, y = CBool b
            /\ (b = true <-> exists s, x = CStr s /\ In s yes_spellings).

(** The calendar cells of a row whose cleaned order date is [x]. *)
Definition calendar_of (x : cell) : list cell :=
  match x with
  | CDate d =>
      [CNum (inject_Z (d_year d)); CNum (inject_Z (d_month d));
       CStr (month_abbr (d_month d)); CNum (inject_Z (dayofweek d));
       CStr (day_name (dayofweek d)); CStr (period_M d)]
  | _ => [CNull; CNull; CNull; CNull; CNull; CStr "NaT"]
  end.

(** Row [i] of the columns [cols] of a frame. *)
Definition row_of (df : DataFrame) (cols : list string) (i : nat) : option (list cell) :=
  mapM (fun name => col ← df !! name; col !! i) cols.

(** The value that the cleaning step writes for a missing value of each
    filled column. *)
Definition fill_values : list (string * string) :=
  [("Category", "Unknown"); ("Brand", "Unknown Brand"); ("Region", "Unknown");
   ("Country", "Unknown"); ("Payment_Method", "Unknown"); ("Courier", "Unknown");
   ("Late Deliveries?", "No")].

(** The completed records of category [c]. *)
Definition category_records (c : string) (df : frame) : frame :=
  List.filter (fun r => String.eqb c (Category r)) (completed df).

(** Two completed orders, of January and February, and a cancelled one
    of March. *)
Definition sample_frame : frame :=
  [january_order; february_order; cancelled_march_order].

(** [raw_example] with another category column, before and after the
    cleaning step: its order dates are those of [raw_example]. *)
Definition recategorised_raw : DataFrame :=
  <["Category" := [CNull; CStr "Toys"]]> raw_example.

Definition recategorised_cleaned : DataFrame :=
  <["Category" := [CStr "Unknown"; CStr "Toys"]]> cleaned_example.

(** Three months with completed orders. *)
Definition three_months : frame := [january_order; february_order; march_order].

(** *** Frames that the views can read *)











(** * Properties *)

(** ** Sorting *)

Section SortFacts.
Context {A : Type} (before : A -> A -> bool).

Lemma insert_sorted_perm (x : A) (l : list A) :
  Permutation (insert_sorted before x l) (x :: l).
Proof.
  induction l as [|y l IH]; simpl; [reflexivity|].
  destruct (before x y); [reflexivity|].
  rewrite IH. apply perm_swap.
Qed.

Lemma sort_values_perm (l : list A) : Permutation (sort_values before l) l.
Proof.
  induction l as [|x l IH]; simpl; [constructor|].
  rewrite insert_sorted_perm. now constructor.
Qed.

Lemma sort_values_length (l : list A) :
  length (sort_values before l) = length l.
Proof. apply Permutation_length, sort_values_perm. Qed.

Lemma sort_values_In (l : list A) (x : A) :
  In x (sort_values before l) <-> In x l.
Proof.
  split; apply Permutation_in;
    [apply sort_values_perm | symmetry; apply sort_values_perm].
Qed.

Lemma Forall_sort_values (P : A -> Prop) (l : list A) :
  Forall P l -> Forall P (sort_values before l).
Proof.
  rewrite !List.Forall_forall. intros H x Hx. apply H.
  now apply sort_values_In.
Qed.

Hypothesis before_total : forall x y, before x y = false -> before y x = true.

Lemma insert_sorted_sorted (x : A) (l : list A) :
  Sorted (fun a b => before a b = true) l ->
  Sorted (fun a b => before a b = true) (insert_sorted before x l).
Proof.
  induction l as [|y l IH]; simpl; intros Hs.
  - repeat constructor.
  - destruct (before x y) eqn:E.
    + constructor; [assumption | now constructor].
    + apply Sorted_inv in Hs as [Hs Hhd].
      constructor; [now apply IH|].
      destruct l as [|z l]; simpl.
      * constructor. now apply before_total.
      * destruct (before x z); constructor.
        -- now apply before_total.
        -- now apply HdRel_inv in Hhd.
Qed.

Lemma sort_values_sorted (l : list A) :
  Sorted (fun a b => before a b = true) (sort_values before l).
Proof.
  induction l as [|x l IH]; simpl; [constructor|].
  now apply insert_sorted_sorted.
Qed.

Hypothesis before_trans :
  forall x y z, before x y = true -> before y z = true -> before x z = true.

Lemma sort_values_strongly_sorted (l : list A) :
  StronglySorted (fun a b => before a b = true) (sort_values before l).
Proof.
  apply Sorted.Sorted_StronglySorted; [|apply sort_values_sorted].
  intros x y z. apply before_trans.
Qed.
End SortFacts.

Lemma Forall_firstn {A} (P : A -> Prop) (n : nat) (l : list A) :
  Forall P l -> Forall P (firstn n l).
Proof.
  intros H. revert n. induction H; intros [|n]; simpl; constructor; auto.
Qed.

Lemma StronglySorted_firstn {A} (R : A -> A -> Prop) (n : nat) (l : list A) :
  StronglySorted R l -> StronglySorted R (firstn n l).
Proof.
  intros H. revert n.
  induction H as [|x l Hs IH Hall]; intros [|n]; simpl; constructor; auto.
  now apply Forall_firstn.
Qed.

Lemma StronglySorted_impl {A} (R S : A -> A -> Prop) (l : list A) :
  (forall a b, R a b -> S a b) -> StronglySorted R l -> StronglySorted S l.
Proof.
  intros HRS H. induction H as [|x l Hs IH Hall]; constructor; auto.
  eapply List.Forall_impl; [|exact Hall]. intros b. apply HRS.
Qed.

Lemma Sorted_impl {A} (R S : A -> A -> Prop) (l : list A) :
  (forall a b, R a b -> S a b) -> Sorted R l -> Sorted S l.
Proof.
  intros HRS H. induction H as [|x l Hs IH Hhd]; constructor; auto.
  destruct Hhd; constructor; auto.
Qed.

(** ** Shipping performance *)

(** C8.  The shipping view has at most ten rows, they are in descending
    order of shipment count (each row has at least as many shipments as
    every row after it), and there are ten of them as soon as the
    completed records have ten couriers. *)
Theorem shipping_at_most_10_sorted (df : frame) :
  (length (calculate_shipping_performance df) <= 10)%nat
  /\ StronglySorted (fun a b => sh_shipments b <= sh_shipments a)
       (calculate_shipping_performance df)
  /\ length (calculate_shipping_performance df)
     = Nat.min 10 (length (shipping_table df)).
Proof.
  unfold calculate_shipping_performance. split; [|split].
  - apply firstn_le_length.
  - apply StronglySorted_firstn.
    eapply StronglySorted_impl.
    2: { apply (sort_values_strongly_sorted (descZ sh_shipments)).
         - unfold descZ. intros x y Hxy. apply Z.leb_gt in Hxy. apply Z.leb_le. lia.
         - unfold descZ. intros x y z Hxy Hyz.
           apply Z.leb_le in Hxy, Hyz. apply Z.leb_le. lia. }
    intros a b Hab. unfold descZ in Hab. now apply Z.leb_le in Hab.
  - now rewrite length_firstn, sort_values_length.
Qed.

(** ** Rounding *)

Lemma rint_near (q : Q) :
  2 * Z.abs (rint q * Zpos (Qden q) - Qnum q) <= Zpos (Qden q).
Proof.
  unfold rint. destruct q as [n d]; simpl.
  pose proof (Z.div_mod n (Zpos d) ltac:(lia)) as Hdm.
  pose proof (Z.mod_pos_bound n (Zpos d) ltac:(lia)) as Hb.
  set (f := n / Zpos d) in *. set (r := n mod Zpos d) in *.
  assert (Hr : n - f * Zpos d = r) by lia. rewrite Hr.
  destruct (Z.ltb_spec (2 * r) (Zpos d)); [lia|].
  destruct (Z.ltb_spec (Zpos d) (2 * r)); [lia|].
  destruct (Z.even f); lia.
Qed.

Lemma rint_nonneg (q : Q) : (0 <= q)%Q -> 0 <= rint q.
Proof.
  unfold rint, Qle. destruct q as [n d]; simpl. intros Hn.
  assert (0 <= n / Zpos d) by (apply Z.div_pos; lia).
  repeat match goal with |- context [if ?b then _ else _] => destruct b end; lia.
Qed.

Lemma rint_error (q : Q) : (Qabs (inject_Z (rint q) - q) <= 1 # 2)%Q.
Proof.
  pose proof (rint_near q) as H.
  destruct q as [n d]. simpl in H.
  apply Qabs_Qle_condition. unfold Qle, Qminus, Qplus, Qopp, inject_Z; simpl.
  split; lia.
Qed.

Lemma round_to_eq (p : positive) (q : Q) :
  (round_to p q == inject_Z (rint (q * inject_Z (Zpos p))) / inject_Z (Zpos p))%Q.
Proof.
  unfold round_to. rewrite Qred_correct. rewrite Qmake_Qdiv. reflexivity.
Qed.

Lemma round_to_error (p : positive) (q : Q) :
  (Qabs (round_to p q - q) <= 1 # (2 * p))%Q.
Proof.
  rewrite round_to_eq.
  pose proof (rint_error (q * inject_Z (Zpos p))) as H.
  set (R := inject_Z (rint (q * inject_Z (Zpos p)))) in *.
  assert (Hp : (0 < inject_Z (Zpos p))%Q) by (unfold Qlt; simpl; lia).
  assert (E : (R / inject_Z (Zpos p) - q == (R - q * inject_Z (Zpos p)) / inject_Z (Zpos p))%Q).
  { field. intros Hc. rewrite Hc in Hp. discriminate. }
  rewrite E. unfold Qdiv. rewrite Qabs_Qmult.
  rewrite (Qabs_pos (/ inject_Z (Zpos p))).
  2: { apply Qlt_le_weak, Qinv_lt_0_compat, Hp. }
  assert (E2 : (1 # (2 * p) == (1 # 2) * / inject_Z (Zpos p))%Q).
  { unfold Qeq, Qinv, Qmult, inject_Z; simpl. lia. }
  rewrite E2. apply Qmult_le_compat_r; [exact H|].
  apply Qlt_le_weak, Qinv_lt_0_compat, Hp.
Qed.

Lemma round_to_nonneg (p : positive) (q : Q) : (0 <= q)%Q -> (0 <= round_to p q)%Q.
Proof.
  intros Hq. unfold round_to. rewrite Qred_correct.
  assert (H : 0 <= rint (q * inject_Z (Zpos p))).
  { apply rint_nonneg. apply Qmult_le_0_compat; [exact Hq|]. unfold Qle; simpl; lia. }
  unfold Qle; simpl. lia.
Qed.

(** ** Sums *)

Lemma Qsum_cons (x : Q) (l : list Q) : (Qsum (x :: l) == x + Qsum l)%Q.
Proof. unfold Qsum; simpl. apply Qred_correct. Qed.

Lemma Qsum_perm (l l' : list Q) : Permutation l l' -> (Qsum l == Qsum l')%Q.
Proof.
  induction 1 as [|x l l' _ IH|x y l|l l' l'' _ IH1 _ IH2].
  - reflexivity.
  - rewrite !Qsum_cons, IH. reflexivity.
  - rewrite !Qsum_cons. ring.
  - now rewrite IH1.
Qed.

Lemma Qsum_nonneg (l : list Q) : Forall (fun x => (0 <= x)%Q) l -> (0 <= Qsum l)%Q.
Proof.
  induction 1 as [|x l Hx _ IH]; [apply Qle_refl|].
  rewrite Qsum_cons. replace 0%Q with (0 + 0)%Q by reflexivity.
  now apply Qplus_le_compat.
Qed.

Lemma nsum_Fin (l : list Q) : fold_right nadd (Fin 0) (map Fin l) = Fin (Qsum l).
Proof.
  induction l as [|x l IH]; [reflexivity|].
  simpl. rewrite IH. reflexivity.
Qed.

Lemma map_zip_with_l {A B C D} (f : A -> B -> C) (g : C -> D) (h : A -> D)
    (l : list A) (k : list B) :
  (forall a b, g (f a b) = h a) -> length l = length k ->
  map g (zip_with f l k) = map h l.
Proof.
  intros Hg. revert k. induction l as [|a l IH]; intros [|b k] Hlen;
    simpl in *; try discriminate; [reflexivity|].
  rewrite Hg. f_equal. apply IH. lia.
Qed.

Lemma map_zip_with_r {A B C D} (f : A -> B -> C) (g : C -> D) (h : B -> D)
    (l : list A) (k : list B) :
  (forall a b, g (f a b) = h b) -> length l = length k ->
  map g (zip_with f l k) = map h k.
Proof.
  intros Hg. revert k. induction l as [|a l IH]; intros [|b k] Hlen;
    simpl in *; try discriminate; [reflexivity|].
  rewrite Hg. f_equal. apply IH. lia.
Qed.

Lemma cumsum_from_length (acc : num) (l : list num) :
  length (cumsum_from acc l) = length l.
Proof.
  revert acc. induction l as [|x l IH]; intros acc; simpl; [reflexivity|].
  destruct (isna x); simpl; now rewrite IH.
Qed.

Lemma cumsum_length (l : list num) : length (cumsum l) = length l.
Proof.
  induction l as [|x l IH]; simpl; [reflexivity|].
  destruct (isna x); simpl; [now rewrite IH | now rewrite cumsum_from_length].
Qed.

(** ** Category performance *)

Lemma with_pareto_revenue (rows : list category_agg) :
  map cp_revenue (with_pareto rows) = map ca_revenue rows.
Proof.
  unfold with_pareto. apply map_zip_with_l; [reflexivity|].
  now rewrite cumsum_length, length_map.
Qed.

Lemma with_pareto_share (rows : list category_agg) :
  map cp_revenue_share (with_pareto rows) = map ca_revenue_share rows.
Proof.
  unfold with_pareto. apply map_zip_with_l; [reflexivity|].
  now rewrite cumsum_length, length_map.
Qed.

Lemma with_pareto_cumulative (rows : list category_agg) :
  map cp_cumulative_share (with_pareto rows) = cumsum (map ca_revenue_share rows).
Proof.
  unfold with_pareto. rewrite (map_zip_with_r _ _ id); [apply map_id|reflexivity|].
  now rewrite cumsum_length, length_map.
Qed.

Lemma with_pareto_class (rows : list category_agg) :
  Forall (fun r => cp_pareto_class r = pareto_class (cp_cumulative_share r))
         (with_pareto rows).
Proof.
  unfold with_pareto. generalize (cumsum (map ca_revenue_share rows)).
  induction rows as [|r rows IH]; intros [|c cs]; simpl; constructor; auto.
Qed.

Lemma category_table_revenue (df : frame) :
  map ca_revenue (category_table df)
  = map (fun g => sum2 Revenue_USD (snd g))
        (groupby (fun r => Some (Category r)) (completed df)).
Proof. unfold category_table. now rewrite map_map. Qed.

Lemma category_table_share (df : frame) :
  Forall (fun r =>
            ca_revenue_share r
            = pct (Fin (ca_revenue r)) (Fin (Qsum (map ca_revenue (category_table df)))))
         (category_table df).
Proof.
  rewrite category_table_revenue. unfold category_table.
  apply Forall_map. apply Forall_forall. intros g _. reflexivity.
Qed.

Lemma Qzero_iff q : Qzero q = true <-> (q == 0)%Q.
Proof. unfold Qzero, Qeq. simpl. rewrite Z.eqb_eq. lia. Qed.

Lemma Qzero_false q : (0 < q)%Q -> Qzero q = false.
Proof.
  intros Hq. destruct (Qzero q) eqn:E; [|reflexivity].
  apply Qzero_iff in E. rewrite E in Hq. discriminate.
Qed.

Lemma pct_pos (a t : Q) : (0 < t)%Q -> pct (Fin a) (Fin t) = Fin (share_of t a).
Proof.
  intros Ht. unfold pct, ndiv. rewrite (Qzero_false _ Ht). reflexivity.
Qed.

Lemma share_of_nonneg (t a : Q) : (0 < t)%Q -> (0 <= a)%Q -> (0 <= share_of t a)%Q.
Proof.
  intros Ht Ha. unfold share_of. apply round_to_nonneg.
  rewrite !Qred_correct.
  apply Qmult_le_0_compat; [|discriminate].
  apply Qle_shift_div_l; [exact Ht|]. now rewrite Qmult_0_l.
Qed.

Lemma share_of_error (t a : Q) :
  (Qabs (share_of t a - a / t * inject_Z 100) <= 1 # 200)%Q.
Proof.
  unfold share_of.
  assert (E : (Qred (Qred (a / t) * inject_Z 100) == a / t * inject_Z 100)%Q)
    by (now rewrite !Qred_correct).
  rewrite <- E. apply (round_to_error 100).
Qed.

Lemma shares_sum_error (t : Q) (revs : list Q) :
  (Qabs (Qsum (map (share_of t) revs) - Qsum revs / t * inject_Z 100)
   <= inject_Z (Z.of_nat (length revs)) * (1 # 200))%Q.
Proof.
  induction revs as [|x l IH].
  - vm_compute. discriminate.
  - cbn [map length]. rewrite !Qsum_cons.
    assert (E : (share_of t x + Qsum (map (share_of t) l) - (x + Qsum l) / t * inject_Z 100
                 == (share_of t x - x / t * inject_Z 100)
                    + (Qsum (map (share_of t) l) - Qsum l / t * inject_Z 100))%Q)
      by (unfold Qdiv; ring).
    rewrite E. eapply Qle_trans; [apply Qabs_triangle|].
    rewrite Nat2Z.inj_succ, <- Z.add_1_r, inject_Z_plus.
    assert (E2 : ((inject_Z (Z.of_nat (length l)) + inject_Z 1) * (1 # 200)
                  == (1 # 200) + inject_Z (Z.of_nat (length l)) * (1 # 200))%Q) by ring.
    rewrite E2. apply Qplus_le_compat; [apply share_of_error | exact IH].
Qed.

Lemma cumsum_from_sorted (a : Q) (qs : list Q) :
  Forall (fun q => (0 <= q)%Q) qs ->
  Sorted (fun x y => nleb x y = true) (Fin a :: cumsum_from (Fin a) (map Fin qs)).
Proof.
  intros H. revert a. induction H as [|q qs Hq _ IH]; intros a; simpl.
  - repeat constructor.
  - constructor; [apply IH|]. constructor. simpl.
    apply Qle_bool_iff. rewrite Qred_correct.
    rewrite <- (Qplus_0_r a) at 1. now apply Qplus_le_r.
Qed.

Lemma cumsum_sorted (qs : list Q) :
  Forall (fun q => (0 <= q)%Q) qs ->
  Sorted (fun x y => nleb x y = true) (cumsum (map Fin qs)).
Proof.
  intros [|q qs' Hq H]; simpl; [constructor|].
  now apply cumsum_from_sorted.
Qed.

Lemma desc_total {A} (f : A -> Q) (x y : A) : desc f x y = false -> desc f y x = true.
Proof.
  unfold desc. intros H. apply Qle_bool_iff.
  destruct (Qlt_le_dec (f x) (f y)) as [Hlt|Hle]; [now apply Qlt_le_weak|].
  apply Qle_bool_iff in Hle. congruence.
Qed.

Lemma desc_trans {A} (f : A -> Q) (x y z : A) :
  desc f x y = true -> desc f y z = true -> desc f x z = true.
Proof.
  unfold desc. rewrite !Qle_bool_iff. intros H1 H2. eapply Qle_trans; eauto.
Qed.

Lemma sort_desc_sorted {A} (f : A -> Q) (l : list A) :
  StronglySorted (fun a b => (f b <= f a)%Q) (sort_values (desc f) l).
Proof.
  eapply StronglySorted_impl;
    [|apply (sort_values_strongly_sorted (desc f));
      [apply desc_total | apply desc_trans]].
  intros a b H. now apply Qle_bool_iff.
Qed.

Lemma pct_nonzero (a t : Q) : Qzero t = false -> pct (Fin a) (Fin t) = Fin (share_of t a).
Proof. intros Ht. unfold pct, ndiv. rewrite Ht. reflexivity. Qed.

Lemma Qzero_false_iff (q : Q) : Qzero q = false <-> ~ (q == 0)%Q.
Proof.
  split.
  - intros Hz Hq. apply Qzero_iff in Hq. congruence.
  - intros Hq. destruct (Qzero q) eqn:E; [|reflexivity].
    apply Qzero_iff in E. contradiction.
Qed.

Lemma shares_near_100 (t : Q) (revs : list Q) :
  ~ (t == 0)%Q -> (Qsum revs == t)%Q ->
  exists s,
    nsum (map (fun a => pct (Fin a) (Fin t)) revs) = Fin s
    /\ (Qabs (s - inject_Z 100) <= inject_Z (Z.of_nat (length revs)) * (1 # 200))%Q.
Proof.
  intros Ht Hsum. apply Qzero_false_iff in Ht as Hz.
  assert (E : map (fun a => pct (Fin a) (Fin t)) revs = map Fin (map (share_of t) revs)).
  { rewrite map_map. apply map_ext. intros a. now apply pct_nonzero. }
  unfold nsum. rewrite E, nsum_Fin. eexists. split; [reflexivity|].
  pose proof (shares_sum_error t revs) as Herr.
  assert (E2 : (Qsum revs / t * inject_Z 100 == inject_Z 100)%Q).
  { rewrite Hsum. field. exact Ht. }
  now rewrite E2 in Herr.
Qed.

(** C7, as amended.  The rows of the category view are in descending
    order of revenue, and a row is a "Top Performer" exactly when its
    cumulative share is at most 80, whatever the frame.  When the
    rounded revenues of the categories do not add up to zero, the
    revenue shares add up to 100 within half a cent per row; and when,
    besides, no category has a negative rounded revenue, the cumulative
    share never decreases down the rows. *)
Theorem category_shares (df : frame) :
  StronglySorted (fun a b => (cp_revenue b <= cp_revenue a)%Q)
    (calculate_category_performance df)
  /\ Forall (fun r =>
               cp_pareto_class r = "Top Performer"
               <-> nleb (cp_cumulative_share r) (of_Z 80) = true)
       (calculate_category_performance df)
  /\ (~ (Qsum (map cp_revenue (calculate_category_performance df)) == 0)%Q ->
      (exists s,
          share_total (calculate_category_performance df) = Fin s
          /\ (Qabs (s - inject_Z 100)
              <= inject_Z (Z.of_nat (length (calculate_category_performance df)))
                 * (1 # 200))%Q)
      /\ (Forall (fun r => (0 <= cp_revenue r)%Q) (calculate_category_performance df) ->
          Sorted (fun x y => nleb x y = true)
            (map cp_cumulative_share (calculate_category_performance df)))).
Proof.
  unfold calculate_category_performance, share_total.
  set (T := category_table df).
  set (S := sort_values (desc ca_revenue) T).
  assert (HST : Permutation S T) by apply sort_values_perm.
  set (t := Qsum (map ca_revenue T)).
  split; [|split].
  - assert (Hs : StronglySorted (fun a b => (ca_revenue b <= ca_revenue a)%Q) S)
      by apply sort_desc_sorted.
    revert Hs. unfold with_pareto. generalize (cumsum (map ca_revenue_share S)).
    generalize S. clear.
    intros S cs Hs. revert cs.
    induction Hs as [|r S Hs IH Hall]; intros [|c cs]; simpl; constructor; auto.
    clear -Hall. revert cs. induction Hall as [|r' S Hr' _ IH]; intros [|c' cs];
      simpl; constructor; auto.
  - eapply List.Forall_impl; [|apply with_pareto_class].
    intros r ->. unfold pareto_class.
    destruct (nleb (cp_cumulative_share r) (of_Z 80)); split; intros; congruence.
  - intros Hne.
    assert (Hsum : (Qsum (map ca_revenue S) == t)%Q)
      by apply (Qsum_perm _ _ (Permutation_map ca_revenue HST)).
    assert (Ht : ~ (t == 0)%Q).
    { intros Hc. apply Hne. now rewrite with_pareto_revenue, Hsum. }
    assert (Hshare : map ca_revenue_share S
                     = map (fun a => pct (Fin a) (Fin t)) (map ca_revenue S)).
    { rewrite map_map. apply map_ext_in. intros r Hr.
      apply (Permutation_in _ HST) in Hr.
      pose proof (category_table_share df) as Hall.
      rewrite List.Forall_forall in Hall. exact (Hall r Hr). }
    assert (Hlen : length (with_pareto S) = length (map ca_revenue S)).
    { now rewrite <- with_pareto_revenue, !length_map. }
    split.
    + rewrite with_pareto_share, Hshare, Hlen.
      exact (shares_near_100 t (map ca_revenue S) Ht Hsum).
    + intros Hnn.
      assert (Hrev : Forall (fun q => (0 <= q)%Q) (map ca_revenue S)).
      { rewrite <- with_pareto_revenue. now apply Forall_map. }
      assert (Hpos : (0 < t)%Q).
      { destruct (Qlt_le_dec 0 t) as [Hlt|Hle]; [exact Hlt|].
        exfalso. apply Ht. apply Qle_antisym; [exact Hle|].
        rewrite <- Hsum. now apply Qsum_nonneg. }
      rewrite with_pareto_cumulative, Hshare.
      assert (E : map (fun a => pct (Fin a) (Fin t)) (map ca_revenue S)
                  = map Fin (map (share_of t) (map ca_revenue S))).
      { rewrite (map_map (share_of t)). apply map_ext. intros a. now apply pct_pos. }
      rewrite E. apply cumsum_sorted.
      apply Forall_map. apply List.Forall_forall. intros q Hq.
      apply share_of_nonneg; [exact Hpos|].
      rewrite List.Forall_forall in Hrev. now apply Hrev.
Qed.

Lemma category_shares_witness :
  ~ (Qsum (map cp_revenue
             (calculate_category_performance [january_order; refund_order])) == 0)%Q
  /\ (exists s,
         share_total (calculate_category_performance [january_order; refund_order]) = Fin s
         /\ (Qabs (s - inject_Z 100)
             <= inject_Z (Z.of_nat (length (calculate_category_performance
                                              [january_order; refund_order])))
                * (1 # 200))%Q)
  /\ ~ (Qsum (map cp_revenue
                (calculate_category_performance [january_order; february_order])) == 0)%Q
  /\ Forall (fun r => (0 <= cp_revenue r)%Q)
       (calculate_category_performance [january_order; february_order])
  /\ Sorted (fun x y => nleb x y = true)
       (map cp_cumulative_share
          (calculate_category_performance [january_order; february_order])).
Proof.
  assert (H0 : ~ (Qsum (map cp_revenue
                     (calculate_category_performance [january_order; refund_order])) == 0)%Q)
    by (intros H; vm_compute in H; discriminate).
  assert (H1 : ~ (Qsum (map cp_revenue
                     (calculate_category_performance [january_order; february_order])) == 0)%Q)
    by (intros H; vm_compute in H; discriminate).
  assert (H2 : Forall (fun r => (0 <= cp_revenue r)%Q)
                 (calculate_category_performance [january_order; february_order])).
  { apply List.Forall_forall. intros r Hr. vm_compute in Hr.
    destruct Hr as [<-|[<-|[]]]; vm_compute; discriminate. }
  split; [exact H0|].
  split; [exact (proj1 (proj2 (proj2 (category_shares [january_order; refund_order])) H0))|].
  split; [exact H1|]. split; [exact H2|].
  exact (proj2 (proj2 (proj2 (category_shares [january_order; february_order])) H1) H2).
Defined.

(** One completed order without revenue: the shares are 0/0, their sum
    is NaN.  A category with a negative revenue: the cumulative share
    goes down from 200 to 100. *)
Lemma category_shares_counterexample :
  completed [free_order] <> []
  /\ map cp_revenue_share (calculate_category_performance [free_order]) = [NaN]
  /\ share_total (calculate_category_performance [free_order]) = NaN
  /\ completed [january_order; refund_order] <> []
  /\ map cp_cumulative_share
       (calculate_category_performance [january_order; refund_order])
     = [Fin 200; Fin 100]
  /\ ~ Sorted (fun x y => nleb x y = true)
        (map cp_cumulative_share
           (calculate_category_performance [january_order; refund_order])).
Proof.
  assert (E : map cp_cumulative_share
                (calculate_category_performance [january_order; refund_order])
              = [Fin 200; Fin 100]) by (vm_compute; reflexivity).
  split; [intros H; vm_compute in H; discriminate|].
  split; [vm_compute; reflexivity|].
  split; [vm_compute; reflexivity|].
  split; [intros H; vm_compute in H; discriminate|].
  split; [exact E|].
  rewrite E. intros H. apply Sorted_inv in H as [_ H].
  apply HdRel_inv in H. vm_compute in H. discriminate.
Qed.

(** ** Grouping *)

Section GroupFacts.
Context {K : Type} `{Key K}.

Lemma insert_key_nonempty (k : K) (ks : list K) : insert_key k ks <> [].
Proof.
  destruct ks as [|k' ks]; simpl; [discriminate|].
  destruct (key_eqb k k'); [discriminate|].
  destruct (key_leb k k'); discriminate.
Qed.

Lemma group_keys_nonempty (ks : list K) : ks <> [] -> group_keys ks <> [].
Proof.
  destruct ks as [|k ks]; [congruence|]. intros _. simpl.
  apply insert_key_nonempty.
Qed.

Lemma groupby_keys (key : record -> option K) (df : frame) :
  map fst (groupby key df) = group_keys (omap key df).
Proof. unfold groupby. rewrite map_map. simpl. apply map_id. Qed.

Lemma groupby_total_nonempty (f : record -> K) (df : frame) :
  df <> [] -> groupby (fun r => Some (f r)) df <> [].
Proof.
  intros Hdf Hg. apply (f_equal (map fst)) in Hg.
  rewrite groupby_keys in Hg. simpl in Hg.
  apply (group_keys_nonempty (omap (fun r => Some (f r)) df)); [|exact Hg].
  destruct df; [congruence|]. discriminate.
Qed.

Lemma groupby_nil (key : record -> option K) : groupby key [] = [].
Proof. reflexivity. Qed.

(** Keys come out in strictly increasing order when the order is total
    and the equality test symmetric. *)
Hypothesis leb_total : forall a b : K, key_leb a b = false -> key_leb b a = true.
Hypothesis eqb_sym : forall a b : K, key_eqb a b = key_eqb b a.

Lemma insert_key_sorted (k : K) (ks : list K) :
  Sorted key_lt ks -> Sorted key_lt (insert_key k ks).
Proof.
  induction ks as [|k' ks IH]; simpl; intros Hs.
  - repeat constructor.
  - destruct (key_eqb k k') eqn:Ee; [exact Hs|].
    destruct (key_leb k k') eqn:El.
    + constructor; [exact Hs|]. constructor. now split.
    + apply Sorted_inv in Hs as [Hs Hhd].
      constructor; [now apply IH|].
      assert (Hk : key_lt k' k).
      { split; [now apply leb_total | now rewrite eqb_sym]. }
      destruct ks as [|k'' ks]; simpl; [now constructor|].
      destruct (key_eqb k k''); [exact Hhd|].
      destruct (key_leb k k''); constructor; auto.
      now apply HdRel_inv in Hhd.
Qed.

Lemma group_keys_sorted (ks : list K) : Sorted key_lt (group_keys ks).
Proof.
  induction ks as [|k ks IH]; simpl; [constructor|].
  now apply insert_key_sorted.
Qed.
End GroupFacts.

Lemma string_leb_total (a b : string) : String.leb a b = false -> String.leb b a = true.
Proof. intros Hab. destruct (String.leb_total a b); congruence. Qed.

(** ** Monthly trend *)

Lemma pct_change_length (l : list Q) : length (pct_change l) = length l.
Proof.
  destruct l as [|x l]; simpl; [reflexivity|]. f_equal.
  revert x. induction l as [|y l IH]; intros x; simpl; [reflexivity|].
  now rewrite IH.
Qed.

Lemma rolling3_mean_length (l : list Q) : length (rolling3_mean l) = length l.
Proof.
  destruct l as [|a [|b l]]; simpl; try reflexivity. do 2 f_equal.
  revert a b. induction l as [|c l IH]; intros a b; simpl; [reflexivity|].
  now rewrite IH.
Qed.

Lemma monthly_months (df : frame) :
  map mt_month (calculate_monthly_trends df)
  = group_keys (map YearMonth (completed df)).
Proof.
  unfold calculate_monthly_trends.
  rewrite (map_zip_with_l _ _ fst); [|reflexivity|].
  - rewrite groupby_keys. f_equal.
  - rewrite length_zip, length_zip_with, !length_map, pct_change_length,
      rolling3_mean_length, !length_map. lia.
Qed.

Lemma Sorted_of_map {A B} (R : B -> B -> Prop) (f : A -> B) (l : list A) :
  Sorted R (map f l) -> Sorted (fun a b => R (f a) (f b)) l.
Proof.
  induction l as [|x l IH]; simpl; intros Hs; constructor.
  - apply IH. now inversion Hs.
  - inversion Hs as [|? ? _ Hhd]; subst.
    destruct l; simpl in *; constructor. now inversion Hhd.
Qed.

Lemma string_key_lt (a b : string) : key_lt a b -> String.ltb a b = true.
Proof.
  unfold key_lt, String.ltb; simpl. unfold String.leb. intros [Hle Hne].
  apply String.eqb_neq in Hne.
  destruct (String.compare a b) eqn:E; try reflexivity; try discriminate.
  apply String.compare_eq_iff in E. contradiction.
Qed.

(** C5.  With at least one completed record the monthly view has a
    first row; its rows are in strictly increasing order of their
    period key, so the first row is the earliest period; the growth of
    the first row is 0; and the moving average of the first row and of
    the second row, when there is one, is that row's own rounded
    revenue. *)
Theorem monthly_first_periods (df : frame) :
  completed df <> [] ->
  exists first rest,
    calculate_monthly_trends df = first :: rest
    /\ Sorted (fun a b => String.ltb (mt_month a) (mt_month b) = true)
         (first :: rest)
    /\ mt_revenue_growth first = Fin 0
    /\ mt_revenue_ma3 first = Fin (mt_revenue first)
    /\ match rest with
       | second :: _ => mt_revenue_ma3 second = Fin (mt_revenue second)
       | [] => True
       end.
Proof.
  intros Hc.
  pose proof (monthly_months df) as Hm.
  assert (Hs : Sorted (fun a b => String.ltb (mt_month a) (mt_month b) = true)
                 (calculate_monthly_trends df)).
  { apply Sorted_of_map with (R := fun a b => String.ltb a b = true).
    rewrite Hm. eapply Sorted_impl; [apply string_key_lt|].
    apply group_keys_sorted; [apply string_leb_total | apply String.eqb_sym]. }
  revert Hs. clear Hm.
  unfold calculate_monthly_trends.
  pose proof (groupby_total_nonempty YearMonth (completed df) Hc) as Hg.
  destruct (groupby (fun r => Some (YearMonth r)) (completed df)) as [|g1 [|g2 gs]];
    [congruence| |]; simpl; intros Hs.
  - eexists _, _. split; [reflexivity|]. split; [exact Hs|]. repeat split.
  - eexists _, _. split; [reflexivity|]. split; [exact Hs|]. repeat split.
Qed.

Lemma monthly_first_periods_witness :
  completed [january_order; february_order; cancelled_march_order] <> []
  /\ exists first rest,
       calculate_monthly_trends [january_order; february_order; cancelled_march_order]
       = first :: rest
       /\ mt_revenue_growth first = Fin 0
       /\ mt_revenue_ma3 first = Fin (mt_revenue first).
Proof.
  assert (H : completed [january_order; february_order; cancelled_march_order] <> [])
    by (intros H; vm_compute in H; discriminate).
  split; [exact H|].
  destruct (monthly_first_periods _ H) as (first & rest & H1 & _ & H2 & H3 & _).
  exists first, rest. repeat split; assumption.
Defined.

(** The rows of the monthly view against the column of rounded
    revenues. *)
Lemma map_fst_zip {A B} (l : list A) (k : list B) :
  length l = length k -> map fst (zip l k) = l.
Proof.
  revert k. induction l as [|a l IH]; intros [|b k] Hlen; simpl in *;
    try discriminate; [reflexivity|]. f_equal. apply IH. lia.
Qed.

Lemma map_snd_zip {A B} (l : list A) (k : list B) :
  length l = length k -> map snd (zip l k) = k.
Proof.
  revert k. induction l as [|a l IH]; intros [|b k] Hlen; simpl in *;
    try discriminate; [reflexivity|]. f_equal. apply IH. lia.
Qed.

Lemma nth_error_zip_with {A B C} (f : A -> B -> C) (l : list A) (k : list B)
    (i : nat) (a : A) (b : B) :
  nth_error l i = Some a -> nth_error k i = Some b ->
  nth_error (zip_with f l k) i = Some (f a b).
Proof.
  revert k i. induction l as [|x l IH]; intros [|y k] [|i]; simpl; try discriminate.
  - now intros [= ->] [= ->].
  - apply IH.
Qed.

Lemma pct_change_from_nth (p : Q) (l : list Q) (i : nat) (a b : Q) :
  nth_error (p :: l) i = Some a -> nth_error (p :: l) (S i) = Some b ->
  nth_error (pct_change_from p l) i = Some (nsub (ndiv (Fin b) (Fin a)) (Fin 1)).
Proof.
  revert p i. induction l as [|x l IH]; intros p i Ha Hb.
  - destruct i; simpl in Hb; [discriminate|]. destruct i; discriminate.
  - destruct i as [|i]; simpl in *.
    + injection Ha as <-. injection Hb as <-. reflexivity.
    + now apply IH.
Qed.

Lemma pct_change_nth (l : list Q) (i : nat) (a b : Q) :
  nth_error l i = Some a -> nth_error l (S i) = Some b ->
  nth_error (pct_change l) (S i) = Some (nsub (ndiv (Fin b) (Fin a)) (Fin 1)).
Proof.
  destruct l as [|p l]; [destruct i; discriminate|].
  intros Ha Hb. simpl. now apply pct_change_from_nth.
Qed.

Lemma rolling3_from_nth (p q : Q) (l : list Q) (i : nat) (a b c : Q) :
  nth_error (p :: q :: l) i = Some a ->
  nth_error (p :: q :: l) (S i) = Some b ->
  nth_error (p :: q :: l) (S (S i)) = Some c ->
  nth_error (rolling3_from p q l) i = Some (Fin (Qred ((a + b + c) / 3))).
Proof.
  revert p q i. induction l as [|x l IH]; intros p q i Ha Hb Hc.
  - destruct i; simpl in Hc; [discriminate|]. destruct i; discriminate.
  - destruct i as [|i]; simpl in *.
    + injection Ha as <-. injection Hb as <-. injection Hc as <-. reflexivity.
    + now apply IH.
Qed.

Lemma rolling3_mean_nth (l : list Q) (i : nat) (a b c : Q) :
  nth_error l i = Some a -> nth_error l (S i) = Some b ->
  nth_error l (S (S i)) = Some c ->
  nth_error (rolling3_mean l) (S (S i)) = Some (Fin (Qred ((a + b + c) / 3))).
Proof.
  destruct l as [|p [|q l]]; intros Ha Hb Hc.
  - destruct i; discriminate.
  - destruct i; simpl in Hb; [discriminate|]. destruct i; discriminate.
  - simpl. now apply rolling3_from_nth.
Qed.

Lemma monthly_lengths (df : frame) :
  let monthly := groupby (fun r => Some (YearMonth r)) (completed df) in
  let revenue := map (fun g => sum2 Revenue_USD (snd g)) monthly in
  length (map (fun x => fillna (Fin 0) (round2 (nmul x (of_Z 100)))) (pct_change revenue))
  = length monthly
  /\ length (zip_with (fun m x => if isna m then Fin x else m)
               (map round2 (rolling3_mean revenue)) revenue)
     = length monthly.
Proof.
  simpl. rewrite length_zip_with, !length_map, pct_change_length, rolling3_mean_length,
    !length_map. lia.
Qed.

Lemma monthly_revenues (df : frame) :
  map mt_revenue (calculate_monthly_trends df)
  = map (fun g => sum2 Revenue_USD (snd g))
        (groupby (fun r => Some (YearMonth r)) (completed df)).
Proof.
  destruct (monthly_lengths df) as [Hg Hm]. unfold calculate_monthly_trends.
  apply map_zip_with_l; [reflexivity|].
  rewrite length_zip. rewrite Hg, Hm. lia.
Qed.

Lemma monthly_growths (df : frame) :
  map mt_revenue_growth (calculate_monthly_trends df)
  = map (fun x => fillna (Fin 0) (round2 (nmul x (of_Z 100))))
        (pct_change (map mt_revenue (calculate_monthly_trends df))).
Proof.
  rewrite monthly_revenues.
  destruct (monthly_lengths df) as [Hg Hm]. unfold calculate_monthly_trends.
  rewrite (map_zip_with_r _ _ fst); [|reflexivity|].
  - apply map_fst_zip. now rewrite Hg, Hm.
  - rewrite length_zip. rewrite Hg, Hm. lia.
Qed.

Lemma monthly_averages (df : frame) :
  map mt_revenue_ma3 (calculate_monthly_trends df)
  = zip_with (fun m x => if isna m then Fin x else m)
      (map round2 (rolling3_mean (map mt_revenue (calculate_monthly_trends df))))
      (map mt_revenue (calculate_monthly_trends df)).
Proof.
  rewrite monthly_revenues.
  destruct (monthly_lengths df) as [Hg Hm]. unfold calculate_monthly_trends.
  rewrite (map_zip_with_r _ _ snd); [|reflexivity|].
  - apply map_snd_zip. now rewrite Hg, Hm.
  - rewrite length_zip. rewrite Hg, Hm. lia.
Qed.

(** The growth of a row is computed from its revenue and the revenue of
    the row before it. *)
Lemma monthly_consecutive (df : frame) (i : nat) (prev cur : monthly_row) :
  nth_error (calculate_monthly_trends df) i = Some prev ->
  nth_error (calculate_monthly_trends df) (S i) = Some cur ->
  mt_revenue_growth cur
  = fillna (Fin 0)
      (round2 (nmul (nsub (ndiv (Fin (mt_revenue cur)) (Fin (mt_revenue prev))) (Fin 1))
                    (of_Z 100))).
Proof.
  intros Hp Hc.
  pose proof (map_nth_error mt_revenue_growth _ _ Hc) as Hg.
  rewrite monthly_growths in Hg.
  pose proof (pct_change_nth _ _ _ _ (map_nth_error mt_revenue _ _ Hp)
                (map_nth_error mt_revenue _ _ Hc)) as Hpc.
  rewrite (map_nth_error _ _ _ Hpc) in Hg. now injection Hg as <-.
Qed.

(** The moving average of a row that has two rows before it. *)
Lemma monthly_three (df : frame) (i : nat) (a b c : monthly_row) :
  nth_error (calculate_monthly_trends df) i = Some a ->
  nth_error (calculate_monthly_trends df) (S i) = Some b ->
  nth_error (calculate_monthly_trends df) (S (S i)) = Some c ->
  mt_revenue_ma3 c
  = Fin (round_to 100 (Qred ((mt_revenue a + mt_revenue b + mt_revenue c) / 3))).
Proof.
  intros Ha Hb Hc.
  pose proof (map_nth_error mt_revenue_ma3 _ _ Hc) as Hm.
  rewrite monthly_averages in Hm.
  pose proof (rolling3_mean_nth _ _ _ _ _ (map_nth_error mt_revenue _ _ Ha)
                (map_nth_error mt_revenue _ _ Hb) (map_nth_error mt_revenue _ _ Hc)) as Hr.
  rewrite (nth_error_zip_with _ _ _ _ _ _
             (map_nth_error round2 _ _ Hr) (map_nth_error mt_revenue _ _ Hc)) in Hm.
  now injection Hm as <-.
Qed.

(** ** Reading only the completed records *)

Lemma group_keys_In_string (ks : list string) (k : string) :
  In k ks -> In k (group_keys ks).
Proof.
  induction ks as [|k' ks IH]; simpl; [tauto|].
  assert (Hins : forall a l, In k l \/ k = a -> In k (insert_key a l)).
  { clear. intros a l. induction l as [|b l IH]; simpl.
    - intros [H|H]; [destruct H | subst; now left].
    - destruct (String.eqb_spec a b) as [->|Hne].
      + intros [H| ->]; [exact H | now left].
      + destruct (String.leb a b); simpl.
        * intros [[H|H]| ->]; auto.
        * intros [[H|H]| H]; auto. }
  intros [->|Hin]; apply Hins; auto.
Qed.

(** C1, as amended.  Two frames with the same completed records have
    the same monthly, category, regional, channel, payment, day-of-week,
    prime, shipping, product and brand views, and summaries that agree
    on every field but the period label, which is taken from the order
    dates of all the records of its frame.  The order-status view has a
    row for the status of every record of the frame, completed or not. *)
Theorem views_read_completed_only (df1 df2 : frame) :
  completed df1 = completed df2 ->
  calculate_monthly_trends df1 = calculate_monthly_trends df2
  /\ calculate_category_performance df1 = calculate_category_performance df2
  /\ calculate_regional_performance df1 = calculate_regional_performance df2
  /\ calculate_channel_performance df1 = calculate_channel_performance df2
  /\ calculate_payment_analysis df1 = calculate_payment_analysis df2
  /\ calculate_day_of_week_analysis df1 = calculate_day_of_week_analysis df2
  /\ calculate_prime_analysis df1 = calculate_prime_analysis df2
  /\ calculate_shipping_performance df1 = calculate_shipping_performance df2
  /\ calculate_top_products df1 = calculate_top_products df2
  /\ calculate_top_brands df1 = calculate_top_brands df2
  /\ (forall k1 k2,
        calculate_kpis df1 = Some k1 -> calculate_kpis df2 = Some k2 ->
        k2 = {| total_revenue := total_revenue k1;
                total_profit := total_profit k1;
                total_orders := total_orders k1;
                total_units_sold := total_units_sold k1;
                avg_order_value := avg_order_value k1;
                profit_margin := profit_margin k1;
                unique_customers := unique_customers k1;
                prime_member_pct := prime_member_pct k1;
                late_delivery_pct := late_delivery_pct k1;
                unique_products := unique_products k1;
                unique_countries := unique_countries k1;
                avg_discount_rate := avg_discount_rate k1;
                data_period := data_period k2 |}
        /\ data_period_of df1 = Some (data_period k1)
        /\ data_period_of df2 = Some (data_period k2))
  /\ (forall r s,
        In r df1 -> Order_Status r = Some s ->
        In s (map os_status (calculate_order_status_distribution df1))).
Proof.
  intros Hc.
  unfold calculate_monthly_trends, calculate_category_performance, category_table,
    calculate_regional_performance, calculate_channel_performance, channel_table,
    calculate_payment_analysis, payment_table, calculate_day_of_week_analysis,
    day_table, calculate_prime_analysis, calculate_shipping_performance,
    shipping_table, calculate_top_products, product_table, calculate_top_brands,
    brand_table.
  rewrite Hc. repeat (split; [reflexivity|]). split.
  - intros k1 k2. unfold calculate_kpis. rewrite Hc.
    destruct (data_period_of df1) as [p1|]; [|discriminate].
    destruct (data_period_of df2) as [p2|]; [|discriminate].
    intros [= <-] [= <-]. simpl. auto.
  - intros r s Hr Hs. unfold calculate_order_status_distribution.
    rewrite map_map. simpl.
    change (In s (map fst (groupby Order_Status df1))).
    rewrite groupby_keys. apply group_keys_In_string.
    clear -Hr Hs. induction df1 as [|r' df IH]; simpl in *; [tauto|].
    destruct Hr as [->|Hr].
    + unfold mbind, option_bind. rewrite Hs. now left.
    + destruct (Order_Status r'); simpl; auto.
Qed.

Lemma views_read_completed_only_witness :
  completed [january_order] = completed [january_order; cancelled_march_order]
  /\ calculate_monthly_trends [january_order]
     = calculate_monthly_trends [january_order; cancelled_march_order]
  /\ In "Cancelled"
       (map os_status
          (calculate_order_status_distribution [january_order; cancelled_march_order])).
Proof.
  split; [reflexivity|]. split.
  - apply (views_read_completed_only
             [january_order] [january_order; cancelled_march_order]).
    reflexivity.
  - apply (views_read_completed_only
             [january_order; cancelled_march_order]
             [january_order; cancelled_march_order] eq_refl)
      with (r := cancelled_march_order).
    + right. now left.
    + reflexivity.
Defined.

(** A cancelled order of March changes the period label of the summary,
    though the completed records are the same. *)
Lemma kpi_period_reads_all_records :
  completed [january_order] = completed [january_order; cancelled_march_order]
  /\ calculate_kpis [january_order]
     <> calculate_kpis [january_order; cancelled_march_order]
  /\ option_map data_period (calculate_kpis [january_order])
     = Some "Jan 2024 - Jan 2024"
  /\ option_map data_period (calculate_kpis [january_order; cancelled_march_order])
     = Some "Jan 2024 - Mar 2024".
Proof.
  split; [reflexivity|]. split.
  - intros H. apply (f_equal (option_map data_period)) in H.
    vm_compute in H. discriminate.
  - split; vm_compute; reflexivity.
Qed.

(** ** The period label *)

Lemma present_In {A} (l : list (option A)) (x : A) : In (Some x) l -> In x (present l).
Proof.
  unfold present. induction l as [|[y|] l IH]; simpl; [tauto| |].
  - intros [[= ->]|H]; [now left | right; auto].
  - intros [|H]; [discriminate | auto].
Qed.

Lemma date_min_some (l : list (option date)) (d : date) :
  In (Some d) l -> exists m, date_min l = Some m.
Proof.
  intros H. apply present_In in H. unfold date_min.
  destruct (present l) as [|x xs]; [destruct H|]. simpl.
  destruct (fold_right _ None xs); eauto.
Qed.

Lemma date_max_some (l : list (option date)) (d : date) :
  In (Some d) l -> exists m, date_max l = Some m.
Proof.
  intros H. apply present_In in H. unfold date_max.
  destruct (present l) as [|x xs]; [destruct H|]. simpl.
  destruct (fold_right _ None xs); eauto.
Qed.

Lemma data_period_of_some (df : frame) (r : record) (d : date) :
  In r df -> OrderDate r = Some d -> exists p, data_period_of df = Some p.
Proof.
  intros Hr Hd. unfold data_period_of.
  assert (Hin : In (Some d) (map OrderDate df)).
  { rewrite <- Hd. now apply in_map. }
  destruct (date_min_some _ _ Hin) as [lo ->].
  destruct (date_max_some _ _ Hin) as [hi ->]. eauto.
Qed.

(** ** The scenario of two orders *)

(** C4.  Order A1 (revenue 100, profit 20, completed, region and
    country US, with an order date) and order A2 (revenue 50, profit
    10, cancelled): the summary has a total revenue of 100, and the
    order-status view has exactly two rows, "Cancelled" with revenue 50
    and "Completed" with revenue 100, each with one order and an order
    share of 50. *)
Theorem scenario_two_orders (r1 r2 : record) (d1 : date) :
  Order_Id r1 = Some "A1" -> Revenue_USD r1 = 100%Q -> Profit r1 = 20%Q ->
  Order_Status r1 = Some "Completed" -> Region r1 = "US" -> Country r1 = "US" ->
  OrderDate r1 = Some d1 ->
  Order_Id r2 = Some "A2" -> Revenue_USD r2 = 50%Q -> Profit r2 = 10%Q ->
  Order_Status r2 = Some "Cancelled" ->
  (exists k, calculate_kpis [r1; r2] = Some k /\ total_revenue k = Fin 100)
  /\ map (fun row => (os_status row, os_orders row, os_revenue row, os_order_share row))
         (calculate_order_status_distribution [r1; r2])
     = [("Cancelled", 1, 50%Q, Fin 50); ("Completed", 1, 100%Q, Fin 50)].
Proof.
  intros Hid1 Hrev1 Hpr1 Hst1 Hreg1 Hco1 Hd1 Hid2 Hrev2 Hpr2 Hst2.
  assert (Hc : completed [r1; r2] = [r1]).
  { unfold completed, is_completed. simpl. now rewrite Hst1, Hst2. }
  split.
  - destruct (data_period_of_some [r1; r2] r1 d1) as [p Hp]; [now left|exact Hd1|].
    unfold calculate_kpis. rewrite Hp, Hc. eexists. split; [reflexivity|].
    cbn [total_revenue]. unfold sum_of. simpl map. rewrite Hrev1. reflexivity.
  - unfold calculate_order_status_distribution, groupby, has_key, orders_of, sum2, sum_of.
    simpl. rewrite Hst1, Hst2. simpl.
    rewrite Hid1, Hid2, Hrev1, Hrev2. reflexivity.
Qed.

Lemma scenario_two_orders_witness :
  (exists k, calculate_kpis
               [sample_order "A1" "Completed" "Books" 100 20 (mkdate 2024 1 15);
                sample_order "A2" "Cancelled" "Books" 50 10 (mkdate 2024 2 3)] = Some k
             /\ total_revenue k = Fin 100)
  /\ map (fun row => (os_status row, os_orders row, os_revenue row, os_order_share row))
         (calculate_order_status_distribution
            [sample_order "A1" "Completed" "Books" 100 20 (mkdate 2024 1 15);
             sample_order "A2" "Cancelled" "Books" 50 10 (mkdate 2024 2 3)])
     = [("Cancelled", 1, 50%Q, Fin 50); ("Completed", 1, 100%Q, Fin 50)].
Proof.
  apply (scenario_two_orders _ _ (mkdate 2024 1 15)); reflexivity.
Defined.

(** ** Ratios *)









(** ** Zero denominators *)



Lemma present_map_Some {A} (l : list A) : present (map Some l) = l.
Proof.
  unfold present. induction l as [|x l IH]; simpl; [reflexivity|].
  f_equal. exact IH.
Qed.












(** ** The document *)


(** ** Further facts on the views *)

(** *** Groups and their keys *)

Lemma omap_In {A B} (f : A -> option B) (l : list A) (y : B) :
  In y (omap f l) <-> exists x, In x l /\ f x = Some y.
Proof.
  induction l as [|a l IH]; simpl.
  - split; [tauto | intros (x & [] & _)].
  - destruct (f a) as [b|] eqn:E; simpl; rewrite IH; split.
    + intros [<-|(x & Hx & Hf)]; eauto.
    + intros (x & [<-|Hx] & Hf); [left; congruence | right; eauto].
    + intros (x & Hx & Hf); eauto.
    + intros (x & [<-|Hx] & Hf); [congruence | eauto].
Qed.

Section KeyFacts.
Context {K : Type} `{Key K}.
Hypothesis eqb_eq : forall a b : K, key_eqb a b = true <-> a = b.

Lemma insert_key_In (k x : K) (ks : list K) :
  In x (insert_key k ks) <-> x = k \/ In x ks.
Proof.
  induction ks as [|k' ks IH]; simpl; [intuition|].
  destruct (key_eqb k k') eqn:E.
  - apply eqb_eq in E. subst. simpl. intuition.
  - destruct (key_leb k k'); simpl; [intuition|]. rewrite IH. intuition.
Qed.

Lemma group_keys_In (x : K) (ks : list K) : In x (group_keys ks) <-> In x ks.
Proof.
  induction ks as [|k ks IH]; simpl; [tauto|].
  rewrite insert_key_In, IH. intuition.
Qed.

Lemma has_key_iff (key : record -> option K) (k : K) (r : record) :
  has_key key k r = true <-> key r = Some k.
Proof.
  unfold has_key. destruct (key r) as [k'|]; [|split; discriminate].
  rewrite eqb_eq. split; congruence.
Qed.

(** A group is never empty, and holds exactly the records of its key. *)
Lemma groupby_In (key : record -> option K) (df : frame) (k : K) (g : frame) :
  In (k, g) (groupby key df) ->
  g <> []
  /\ g = List.filter (has_key key k) df
  /\ forall r, In r g <-> In r df /\ key r = Some k.
Proof.
  unfold groupby. rewrite in_map_iff. intros (k0 & [= <- <-] & Hk).
  apply group_keys_In, omap_In in Hk as (r & Hr & Hkey).
  assert (Hg : forall r', In r' (List.filter (has_key key k0) df)
                          <-> In r' df /\ key r' = Some k0).
  { intros r'. rewrite filter_In, has_key_iff. tauto. }
  split; [|split; [reflexivity|exact Hg]].
  intros Hnil. assert (Hin : In r (List.filter (has_key key k0) df)) by (apply Hg; auto).
  rewrite Hnil in Hin. destruct Hin.
Qed.

Lemma groupby_key_In (key : record -> option K) (df : frame) (k : K) :
  In k (map fst (groupby key df)) <-> exists r, In r df /\ key r = Some k.
Proof. rewrite groupby_keys, group_keys_In. apply omap_In. Qed.
End KeyFacts.

Lemma prod_eqb_eq {K1 K2} `{Key K1} `{Key K2} :
  (forall a b : K1, key_eqb a b = true <-> a = b) ->
  (forall a b : K2, key_eqb a b = true <-> a = b) ->
  forall a b : K1 * K2, key_eqb a b = true <-> a = b.
Proof.
  intros H1 H2 [a1 a2] [b1 b2]. simpl. rewrite andb_true_iff, H1, H2.
  split; [intros [-> ->]; reflexivity | intros [= -> ->]; auto].
Qed.

Lemma string_eqb_eq (a b : string) : key_eqb a b = true <-> a = b.
Proof. apply String.eqb_eq. Qed.

Lemma bool_eqb_eq (a b : bool) : key_eqb a b = true <-> a = b.
Proof. apply Bool.eqb_true_iff. Qed.

Lemma Z_eqb_eq (a b : Z) : key_eqb a b = true <-> a = b.
Proof. apply Z.eqb_eq. Qed.

(** *** The order of texts *)

Lemma ascii_compare_lt_trans (a b c : ascii) :
  Ascii.compare a b = Lt -> Ascii.compare b c = Lt -> Ascii.compare a c = Lt.
Proof.
  unfold Ascii.compare. rewrite !N.compare_lt_iff. apply N.lt_trans.
Qed.

Lemma string_compare_lt_trans (a b c : string) :
  String.compare a b = Lt -> String.compare b c = Lt -> String.compare a c = Lt.
Proof.
  revert b c. induction a as [|x a IH]; intros [|y b] [|z c]; simpl;
    try discriminate; try reflexivity.
  destruct (Ascii.compare x y) eqn:Exy; try discriminate.
  - apply Ascii.compare_eq_iff in Exy. subst y.
    destruct (Ascii.compare x z); try discriminate; [apply IH | reflexivity].
  - intros _. destruct (Ascii.compare y z) eqn:Eyz; try discriminate.
    + apply Ascii.compare_eq_iff in Eyz. subst z. now rewrite Exy.
    + intros _. now rewrite (ascii_compare_lt_trans _ _ _ Exy Eyz).
Qed.

Lemma string_key_lt_iff (a b : string) : key_lt a b <-> String.compare a b = Lt.
Proof.
  unfold key_lt; simpl. unfold String.leb. split.
  - intros [Hle Hne]. apply String.eqb_neq in Hne.
    destruct (String.compare a b) eqn:E; try reflexivity; try discriminate.
    apply String.compare_eq_iff in E. contradiction.
  - intros E. rewrite E. split; [reflexivity|]. apply String.eqb_neq.
    intros ->. clear -E. induction b as [|x b IH]; simpl in E; [discriminate|].
    unfold Ascii.compare in E. rewrite N.compare_refl in E. auto.
Qed.

Lemma group_keys_string_NoDup (ks : list string) : List.NoDup (group_keys ks).
Proof.
  assert (Hs : StronglySorted (fun a b => String.compare a b = Lt) (group_keys ks)).
  { apply Sorted.Sorted_StronglySorted.
    - intros a b c. apply string_compare_lt_trans.
    - eapply Sorted_impl; [apply string_key_lt_iff|].
      apply group_keys_sorted; [apply string_leb_total | apply String.eqb_sym]. }
  induction Hs as [|x l Hs IH Hall]; constructor; [|exact IH].
  intros Hin. rewrite List.Forall_forall in Hall. specialize (Hall x Hin).
  apply string_key_lt_iff in Hall. destruct Hall as [_ Hne].
  simpl in Hne. rewrite String.eqb_refl in Hne. discriminate.
Qed.

(** *** Distinct counts *)

Lemma mem_str_In (s : string) (l : list string) : mem_str s l = true <-> In s l.
Proof.
  induction l as [|x l IH]; simpl; [split; [discriminate|tauto]|].
  rewrite orb_true_iff, IH, String.eqb_eq. intuition.
Qed.

Lemma distinct_In (s : string) (l : list string) : In s (distinct l) <-> In s l.
Proof.
  induction l as [|x l IH]; simpl; [tauto|].
  destruct (mem_str x l) eqn:E.
  - rewrite IH. apply mem_str_In in E. split; [auto|]. intros [<-|?]; auto.
  - simpl. rewrite IH. tauto.
Qed.

Lemma distinct_length (l : list string) : (length (distinct l) <= length l)%nat.
Proof.
  induction l as [|x l IH]; simpl; [lia|].
  destruct (mem_str x l); simpl; lia.
Qed.

Lemma present_length {A} (l : list (option A)) : (length (present l) <= length l)%nat.
Proof.
  unfold present. induction l as [|[x|] l IH]; cbn in *; lia.
Qed.

Lemma nunique_bounds (l : list (option string)) :
  0 <= nunique l <= Z.of_nat (length l).
Proof.
  unfold nunique. pose proof (distinct_length (present l)).
  pose proof (present_length l). lia.
Qed.

Lemma nunique_pos (l : list (option string)) (s : string) :
  In (Some s) l -> 0 < nunique l.
Proof.
  intros H. apply present_In, distinct_In in H. unfold nunique.
  destruct (distinct (present l)); [destruct H|]. simpl. lia.
Qed.

Lemma nunique_zero (l : list (option string)) :
  nunique l = 0 <-> forall x, In x l -> x = None.
Proof.
  split.
  - intros Hz [s|] Hx; [|reflexivity].
    pose proof (nunique_pos l s Hx). lia.
  - intros Hall. unfold nunique, present.
    replace (omap id l) with (@nil string); [reflexivity|].
    induction l as [|x l IH]; simpl; [reflexivity|].
    rewrite (Hall x (or_introl eq_refl)). simpl. apply IH.
    intros y Hy. apply Hall. now right.
Qed.

(** *** Channel performance *)

(** X1.  When the rounded channel revenues do not sum to zero, the rows
    of the channel view are in descending order of revenue, and their
    market shares are finite and sum to 100 within 0.005 per row. *)
Theorem channel_view_shares (df : frame) :
  ~ (Qsum (map ch_revenue (calculate_channel_performance df)) == 0)%Q ->
  StronglySorted (fun a b => (ch_revenue b <= ch_revenue a)%Q)
    (calculate_channel_performance df)
  /\ exists s,
       nsum (map ch_market_share (calculate_channel_performance df)) = Fin s
       /\ (Qabs (s - inject_Z 100)
           <= inject_Z (Z.of_nat (length (calculate_channel_performance df))) * (1 # 200))%Q.
Proof.
  unfold calculate_channel_performance. intros Hne.
  split; [apply sort_desc_sorted|].
  set (S := sort_values (desc ch_revenue) (channel_table df)) in *.
  assert (HST : Permutation S (channel_table df)) by apply sort_values_perm.
  set (t := Qsum (map ch_revenue (channel_table df))).
  assert (Hsum : (Qsum (map ch_revenue S) == t)%Q)
    by apply (Qsum_perm _ _ (Permutation_map ch_revenue HST)).
  assert (Hshare : map ch_market_share S
                   = map (fun a => pct (Fin a) (Fin t)) (map ch_revenue S)).
  { rewrite map_map. apply map_ext_in. intros r Hr.
    apply (Permutation_in _ HST) in Hr. unfold channel_table in Hr.
    apply in_map_iff in Hr as (g & <- & _). simpl. unfold t, channel_table.
    now rewrite map_map. }
  rewrite Hshare. rewrite <- (length_map ch_revenue S).
  apply shares_near_100; [|exact Hsum]. now rewrite <- Hsum.
Qed.

Lemma channel_view_shares_witness :
  ~ (Qsum (map ch_revenue (calculate_channel_performance sample_frame)) == 0)%Q
  /\ exists s,
       nsum (map ch_market_share (calculate_channel_performance sample_frame)) = Fin s
       /\ (Qabs (s - inject_Z 100)
           <= inject_Z (Z.of_nat (length (calculate_channel_performance sample_frame)))
              * (1 # 200))%Q.
Proof.
  assert (H : ~ (Qsum (map ch_revenue (calculate_channel_performance sample_frame)) == 0)%Q)
    by (intros H; vm_compute in H; discriminate).
  split; [exact H|]. exact (proj2 (channel_view_shares sample_frame H)).
Defined.

(** X2.  When the rounded revenues of the payment methods do not sum to
    zero, the rows of the payment view are in descending order of
    revenue, and their shares are finite and sum to 100 within 0.005 per
    row. *)
Theorem payment_view_shares (df : frame) :
  ~ (Qsum (map pa_revenue (calculate_payment_analysis df)) == 0)%Q ->
  StronglySorted (fun a b => (pa_revenue b <= pa_revenue a)%Q)
    (calculate_payment_analysis df)
  /\ exists s,
       nsum (map pa_share (calculate_payment_analysis df)) = Fin s
       /\ (Qabs (s - inject_Z 100)
           <= inject_Z (Z.of_nat (length (calculate_payment_analysis df))) * (1 # 200))%Q.
Proof.
  unfold calculate_payment_analysis. intros Hne.
  split; [apply sort_desc_sorted|].
  set (S := sort_values (desc pa_revenue) (payment_table df)) in *.
  assert (HST : Permutation S (payment_table df)) by apply sort_values_perm.
  set (t := Qsum (map pa_revenue (payment_table df))).
  assert (Hsum : (Qsum (map pa_revenue S) == t)%Q)
    by apply (Qsum_perm _ _ (Permutation_map pa_revenue HST)).
  assert (Hshare : map pa_share S
                   = map (fun a => pct (Fin a) (Fin t)) (map pa_revenue S)).
  { rewrite map_map. apply map_ext_in. intros r Hr.
    apply (Permutation_in _ HST) in Hr. unfold payment_table in Hr.
    apply in_map_iff in Hr as (g & <- & _). simpl. unfold t, payment_table.
    now rewrite map_map. }
  rewrite Hshare. rewrite <- (length_map pa_revenue S).
  apply shares_near_100; [|exact Hsum]. now rewrite <- Hsum.
Qed.

Lemma payment_view_shares_witness :
  ~ (Qsum (map pa_revenue (calculate_payment_analysis sample_frame)) == 0)%Q
  /\ exists s,
       nsum (map pa_share (calculate_payment_analysis sample_frame)) = Fin s
       /\ (Qabs (s - inject_Z 100)
           <= inject_Z (Z.of_nat (length (calculate_payment_analysis sample_frame)))
              * (1 # 200))%Q.
Proof.
  assert (H : ~ (Qsum (map pa_revenue (calculate_payment_analysis sample_frame)) == 0)%Q)
    by (intros H; vm_compute in H; discriminate).
  split; [exact H|]. exact (proj2 (payment_view_shares sample_frame H)).
Defined.

(** *** Rows and keys *)

Lemma channel_view_channels (df : frame) :
  Permutation (map ch_channel (calculate_channel_performance df))
              (group_keys (omap Channel (completed df))).
Proof.
  unfold calculate_channel_performance.
  rewrite (Permutation_map ch_channel (sort_values_perm _ _)).
  unfold channel_table. rewrite map_map. simpl.
  change (map (fun g : string * frame => fst g) (groupby Channel (completed df)))
    with (map fst (groupby Channel (completed df))).
  now rewrite groupby_keys.
Qed.

Lemma In_completed (df : frame) (r : record) :
  In r (completed df) <-> In r df /\ Order_Status r = Some "Completed".
Proof.
  unfold completed. rewrite filter_In. unfold is_completed.
  destruct (Order_Status r) as [s|]; [|split; [intros []; discriminate | intros []; discriminate]].
  rewrite String.eqb_eq. split; intros [? ?]; split; congruence.
Qed.

(** X3.  The channel view has one row per channel, and a channel has a
    row exactly when some completed record carries it: a record without
    a channel is in no row. *)
Theorem channel_view_rows (df : frame) :
  List.NoDup (map ch_channel (calculate_channel_performance df))
  /\ forall c,
       In c (map ch_channel (calculate_channel_performance df))
       <-> exists r, In r df /\ Order_Status r = Some "Completed" /\ Channel r = Some c.
Proof.
  pose proof (channel_view_channels df) as Hp. split.
  - eapply Permutation_NoDup; [symmetry; exact Hp|]. apply group_keys_string_NoDup.
  - intros c. split.
    + intros Hc. apply (Permutation_in _ Hp) in Hc.
      apply (group_keys_In string_eqb_eq), omap_In in Hc as (r & Hr & Hk).
      apply In_completed in Hr as [Hr Hs]. eauto.
    + intros (r & Hr & Hs & Hk). apply (Permutation_in _ (Permutation_sym Hp)).
      apply (group_keys_In string_eqb_eq), omap_In. exists r. split; [|exact Hk].
      apply In_completed. auto.
Qed.

(** X4.  The order-status view lists the statuses in strictly
    increasing order, each once, and a status has a row exactly when
    some record carries it, completed or not. *)
Theorem status_view_rows (df : frame) :
  Sorted (fun a b => String.ltb (os_status a) (os_status b) = true)
    (calculate_order_status_distribution df)
  /\ List.NoDup (map os_status (calculate_order_status_distribution df))
  /\ (forall s,
        In s (map os_status (calculate_order_status_distribution df))
        <-> exists r, In r df /\ Order_Status r = Some s).
Proof.
  assert (Hk : map os_status (calculate_order_status_distribution df)
               = group_keys (omap Order_Status df)).
  { unfold calculate_order_status_distribution. rewrite map_map. simpl.
    change (map (fun g : string * frame => fst g) (groupby Order_Status df))
      with (map fst (groupby Order_Status df)).
    apply groupby_keys. }
  split; [|split].
  - apply Sorted_of_map with (R := fun a b => String.ltb a b = true).
    rewrite Hk. eapply Sorted_impl; [apply string_key_lt|].
    apply group_keys_sorted; [apply string_leb_total | apply String.eqb_sym].
  - rewrite Hk. apply group_keys_string_NoDup.
  - intros s. rewrite Hk, (group_keys_In string_eqb_eq). apply omap_In.
Qed.

Lemma Qsum_inject_Z (l : list Z) : (Qsum (map inject_Z l) == inject_Z (Zsum l))%Q.
Proof.
  induction l as [|x l IH]; [reflexivity|].
  cbn [map Zsum fold_right]. rewrite Qsum_cons, IH, inject_Z_plus. reflexivity.
Qed.

(** X5.  When the order counts of the status rows sum to more than zero,
    the order shares are finite and sum to 100 within 0.005 per row. *)
Theorem status_order_shares (df : frame) :
  0 < Zsum (map os_orders (calculate_order_status_distribution df)) ->
  exists s,
    nsum (map os_order_share (calculate_order_status_distribution df)) = Fin s
    /\ (Qabs (s - inject_Z 100)
        <= inject_Z (Z.of_nat (length (calculate_order_status_distribution df)))
           * (1 # 200))%Q.
Proof.
  unfold calculate_order_status_distribution.
  set (status := groupby Order_Status df).
  set (os := map (fun g : string * frame => orders_of (snd g)) status).
  rewrite !map_map. cbn [os_orders os_order_share]. fold os. intros Hpos.
  assert (E : map (fun g : string * frame =>
                     pct (of_Z (orders_of (snd g))) (of_Z (Zsum os))) status
              = map (fun a => pct (Fin a) (Fin (inject_Z (Zsum os)))) (map inject_Z os)).
  { unfold os. rewrite !map_map. reflexivity. }
  rewrite E, length_map.
  replace (length status) with (length (map inject_Z os))
    by (unfold os; now rewrite !length_map).
  apply shares_near_100; [|apply Qsum_inject_Z].
  unfold Qeq. simpl. lia.
Qed.

Lemma status_order_shares_witness :
  0 < Zsum (map os_orders (calculate_order_status_distribution sample_frame))
  /\ exists s,
       nsum (map os_order_share (calculate_order_status_distribution sample_frame)) = Fin s
       /\ (Qabs (s - inject_Z 100)
           <= inject_Z (Z.of_nat (length (calculate_order_status_distribution sample_frame)))
              * (1 # 200))%Q.
Proof.
  assert (H : 0 < Zsum (map os_orders (calculate_order_status_distribution sample_frame)))
    by reflexivity.
  split; [exact H|]. exact (status_order_shares sample_frame H).
Defined.

(** *** The largest rows *)

Lemma nlargest_split {A} (n : nat) (f : A -> Q) (l : list A) :
  exists rest,
    Permutation (nlargest n f l ++ rest) l
    /\ forall a b, In a (nlargest n f l) -> In b rest -> (f b <= f a)%Q.
Proof.
  unfold nlargest. exists (skipn n (sort_values (desc f) l)). split.
  - rewrite firstn_skipn. apply sort_values_perm.
  - pose proof (sort_desc_sorted f l) as Hs.
    rewrite <- (firstn_skipn n (sort_values (desc f) l)) in Hs.
    revert Hs. generalize (firstn n (sort_values (desc f) l)).
    generalize (skipn n (sort_values (desc f) l)). intros r h.
    induction h as [|x h IH]; simpl; intros Hs a b Ha Hb; [destruct Ha|].
    inversion Hs as [|? ? Hs' Hall]; subst. destruct Ha as [<-|Ha].
    + rewrite List.Forall_forall in Hall. apply Hall. apply in_or_app. now right.
    + now apply (IH Hs').
Qed.

(** X6.  The top-products view holds the 20 product groups of largest
    rounded revenue (all of them when there are fewer), largest first:
    every group that is left out has at most the revenue of every group
    that is listed. *)
Theorem top_products_largest (df : frame) :
  (length (calculate_top_products df) <= 20)%nat
  /\ length (calculate_top_products df) = Nat.min 20 (length (product_table df))
  /\ StronglySorted (fun a b => (tp_revenue b <= tp_revenue a)%Q)
       (calculate_top_products df)
  /\ exists rest,
       Permutation (calculate_top_products df ++ rest) (product_table df)
       /\ forall a b, In a (calculate_top_products df) -> In b rest ->
                      (tp_revenue b <= tp_revenue a)%Q.
Proof.
  unfold calculate_top_products. split; [|split; [|split]].
  - apply firstn_le_length.
  - unfold nlargest. now rewrite length_firstn, sort_values_length.
  - apply StronglySorted_firstn, sort_desc_sorted.
  - apply nlargest_split.
Qed.

(** X7.  The top-brands view holds the 15 brands of largest rounded
    revenue (all of them when there are fewer), largest first: every
    brand that is left out has at most the revenue of every brand that
    is listed. *)
Theorem top_brands_largest (df : frame) :
  (length (calculate_top_brands df) <= 15)%nat
  /\ length (calculate_top_brands df) = Nat.min 15 (length (brand_table df))
  /\ StronglySorted (fun a b => (tb_revenue b <= tb_revenue a)%Q)
       (calculate_top_brands df)
  /\ exists rest,
       Permutation (calculate_top_brands df ++ rest) (brand_table df)
       /\ forall a b, In a (calculate_top_brands df) -> In b rest ->
                      (tb_revenue b <= tb_revenue a)%Q.
Proof.
  unfold calculate_top_brands. split; [|split; [|split]].
  - apply firstn_le_length.
  - unfold nlargest. now rewrite length_firstn, sort_values_length.
  - apply StronglySorted_firstn, sort_desc_sorted.
  - apply nlargest_split.
Qed.

(** *** Prime against non-Prime *)

Lemma group_keys_bool (ks : list bool) :
  group_keys ks = [] \/ group_keys ks = [false] \/ group_keys ks = [true]
  \/ group_keys ks = [false; true].
Proof.
  induction ks as [|k ks IH]; simpl; [now left|].
  destruct IH as [-> | [-> | [-> | ->]]]; destruct k; simpl; auto.
Qed.

(** X8.  The prime view has at most two rows, "Non-Prime" before
    "Prime"; it is empty exactly when no record is completed, and a
    label has a row exactly when some completed record has that flag. *)
Theorem prime_view_two_rows (df : frame) :
  (map pr_is_prime (calculate_prime_analysis df) = [] <-> completed df = [])
  /\ (map pr_is_prime (calculate_prime_analysis df) = []
      \/ map pr_is_prime (calculate_prime_analysis df) = ["Non-Prime"]
      \/ map pr_is_prime (calculate_prime_analysis df) = ["Prime"]
      \/ map pr_is_prime (calculate_prime_analysis df) = ["Non-Prime"; "Prime"])
  /\ (In "Prime" (map pr_is_prime (calculate_prime_analysis df))
      <-> exists r, In r (completed df) /\ Prime_Member r = true)
  /\ (In "Non-Prime" (map pr_is_prime (calculate_prime_analysis df))
      <-> exists r, In r (completed df) /\ Prime_Member r = false).
Proof.
  assert (Hk : map pr_is_prime (calculate_prime_analysis df)
               = map (fun b : bool => if b then "Prime" else "Non-Prime")
                     (group_keys (map Prime_Member (completed df)))).
  { unfold calculate_prime_analysis. rewrite map_map. simpl.
    rewrite <- (map_map fst (fun b : bool => if b then "Prime" else "Non-Prime")).
    rewrite groupby_keys. reflexivity. }
  rewrite Hk.
  assert (Hin : forall b, In b (group_keys (map Prime_Member (completed df)))
                          <-> exists r, In r (completed df) /\ Prime_Member r = b).
  { intros b. rewrite (group_keys_In bool_eqb_eq), in_map_iff.
    split; intros (r & H1 & H2); eauto. }
  split; [|split; [|split]].
  - split.
    + intros Hnil. destruct (completed df) as [|r l]; [reflexivity|].
      apply map_eq_nil in Hnil.
      assert (In (Prime_Member r) (group_keys (map Prime_Member (r :: l))))
        by (apply Hin; exists r; split; [now left|reflexivity]).
      rewrite Hnil in H. destruct H.
    + intros ->. reflexivity.
  - destruct (group_keys_bool (map Prime_Member (completed df))) as [-> | [-> | [-> | ->]]];
      simpl; auto.
  - rewrite <- Hin, in_map_iff. split.
    + intros ([ | ] & Hb & Hi); [exact Hi | discriminate].
    + intros Hi. now exists true.
  - rewrite <- Hin, in_map_iff. split.
    + intros ([ | ] & Hb & Hi); [discriminate | exact Hi].
    + intros Hi. now exists false.
Qed.

(** *** Regional performance *)

(** X9.  When every completed record has an order id and a buyer email,
    every row of the regional view counts at least one order and at
    least one customer: neither of its two ratios divides by zero. *)
Theorem regional_denominators_positive (df : frame) :
  (forall r, In r df -> Order_Status r = Some "Completed" ->
             Order_Id r <> None /\ Buyer_Email r <> None) ->
  Forall (fun row => 0 < rp_orders row /\ 0 < rp_customers row)
    (calculate_regional_performance df).
Proof.
  intros Hids. unfold calculate_regional_performance.
  apply Forall_map, List.Forall_forall. intros [k g] Hg. cbn [snd fst].
  destruct (groupby_In (prod_eqb_eq string_eqb_eq string_eqb_eq) _ _ _ _ Hg)
    as (Hne & _ & Hin).
  destruct g as [|r g]; [congruence|].
  assert (Hr : In r (completed df)) by (apply Hin; now left).
  apply In_completed in Hr as [Hr Hs]. destruct (Hids r Hr Hs) as [Ho Hb].
  cbn [rp_orders rp_customers]. split.
  - destruct (Order_Id r) as [id|] eqn:E; [|congruence].
    apply (nunique_pos _ id). simpl. left. exact E.
  - destruct (Buyer_Email r) as [id|] eqn:E; [|congruence].
    apply (nunique_pos _ id). simpl. left. exact E.
Qed.

Lemma regional_denominators_positive_witness :
  Forall (fun row => 0 < rp_orders row /\ 0 < rp_customers row)
    (calculate_regional_performance [january_order; cancelled_march_order]).
Proof.
  apply (regional_denominators_positive [january_order; cancelled_march_order]).
  intros r [<-|[<-|[]]] _; split; discriminate.
Defined.

(** *** The summary *)

Lemma date_leb_iff (a b : date) :
  date_leb a b = true
  <-> d_year a < d_year b
      \/ (d_year a = d_year b
          /\ (d_month a < d_month b \/ (d_month a = d_month b /\ d_day a <= d_day b))).
Proof.
  unfold date_leb.
  rewrite orb_true_iff, andb_true_iff, orb_true_iff, andb_true_iff.
  rewrite !Z.ltb_lt, !Z.eqb_eq, Z.leb_le. tauto.
Qed.

Lemma date_leb_refl (a : date) : date_leb a a = true.
Proof. apply date_leb_iff. lia. Qed.

Lemma date_leb_trans (a b c : date) :
  date_leb a b = true -> date_leb b c = true -> date_leb a c = true.
Proof. rewrite !date_leb_iff. lia. Qed.

Lemma date_leb_total (a b : date) : date_leb a b = false -> date_leb b a = true.
Proof.
  intros H. apply date_leb_iff.
  assert (Hn : ~ date_leb a b = true) by congruence.
  rewrite date_leb_iff in Hn. lia.
Qed.

Lemma date_min_spec (l : list (option date)) (m : date) :
  date_min l = Some m ->
  In (Some m) l /\ forall d, In (Some d) l -> date_leb m d = true.
Proof.
  unfold date_min, present. revert m.
  induction l as [|[x|] l IH]; intros m; cbn; [discriminate| |].
  - destruct (fold_right _ None (omap id l)) as [m'|] eqn:E.
    + specialize (IH m' eq_refl) as [Hin Hle]. intros [= <-].
      destruct (date_leb x m') eqn:Exm.
      * split; [now left|]. intros d [[= <-]|Hd]; [apply date_leb_refl|].
        eapply date_leb_trans; [exact Exm | now apply Hle].
      * split; [now right|]. intros d [[= <-]|Hd]; [now apply date_leb_total | now apply Hle].
    + intros [= <-]. split; [now left|]. intros d [[= <-]|Hd]; [apply date_leb_refl|].
      exfalso. clear -E Hd. apply present_In in Hd. unfold present in Hd.
      destruct (omap id l) as [|y ys]; [destruct Hd|]. cbn in E.
      destruct (fold_right _ None ys); discriminate.
  - intros Hm. destruct (IH m Hm) as [Hin Hle]. split; [now right|].
    intros d [Hd|Hd]; [discriminate | now apply Hle].
Qed.

Lemma date_max_spec (l : list (option date)) (m : date) :
  date_max l = Some m ->
  In (Some m) l /\ forall d, In (Some d) l -> date_leb d m = true.
Proof.
  unfold date_max, present. revert m.
  induction l as [|[x|] l IH]; intros m; cbn; [discriminate| |].
  - destruct (fold_right _ None (omap id l)) as [m'|] eqn:E.
    + specialize (IH m' eq_refl) as [Hin Hle]. intros [= <-].
      destruct (date_leb m' x) eqn:Exm.
      * split; [now left|]. intros d [[= <-]|Hd]; [apply date_leb_refl|].
        eapply date_leb_trans; [now apply Hle | exact Exm].
      * split; [now right|]. intros d [[= <-]|Hd]; [now apply date_leb_total | now apply Hle].
    + intros [= <-]. split; [now left|]. intros d [[= <-]|Hd]; [apply date_leb_refl|].
      exfalso. clear -E Hd. apply present_In in Hd. unfold present in Hd.
      destruct (omap id l) as [|y ys]; [destruct Hd|]. cbn in E.
      destruct (fold_right _ None ys); discriminate.
  - intros Hm. destruct (IH m Hm) as [Hin Hle]. split; [now right|].
    intros d [Hd|Hd]; [discriminate | now apply Hle].
Qed.

(** X10.  The period label of the summary names the month of the
    earliest and of the latest order date of the frame: both are order
    dates of some record, and every order date of the frame, of a
    completed record or not, lies between them. *)
Theorem period_label_spans_all_dates (df : frame) (k : kpis) :
  calculate_kpis df = Some k ->
  exists lo hi,
    data_period k = strftime_b_Y lo +:+ " - " +:+ strftime_b_Y hi
    /\ (exists r, In r df /\ OrderDate r = Some lo)
    /\ (exists r, In r df /\ OrderDate r = Some hi)
    /\ forall r d, In r df -> OrderDate r = Some d ->
                   date_leb lo d = true /\ date_leb d hi = true.
Proof.
  unfold calculate_kpis, data_period_of.
  destruct (date_min (map OrderDate df)) as [lo|] eqn:Elo; [|discriminate].
  destruct (date_max (map OrderDate df)) as [hi|] eqn:Ehi; [|discriminate].
  intros [= <-]. exists lo, hi. cbn [data_period].
  apply date_min_spec in Elo as [Hlo Hmin]. apply date_max_spec in Ehi as [Hhi Hmax].
  split; [reflexivity|].
  apply in_map_iff in Hlo as (rlo & Hrlo & Hinlo).
  apply in_map_iff in Hhi as (rhi & Hrhi & Hinhi).
  split; [eauto|]. split; [eauto|].
  intros r d Hr Hd.
  assert (Hin : In (Some d) (map OrderDate df)) by (rewrite <- Hd; now apply in_map).
  auto.
Qed.

Lemma period_label_spans_all_dates_witness :
  exists k,
    calculate_kpis sample_frame = Some k
    /\ exists lo hi,
         data_period k = strftime_b_Y lo +:+ " - " +:+ strftime_b_Y hi
         /\ (exists r, In r sample_frame /\ OrderDate r = Some lo)
         /\ (exists r, In r sample_frame /\ OrderDate r = Some hi)
         /\ forall r d, In r sample_frame -> OrderDate r = Some d ->
                        date_leb lo d = true /\ date_leb d hi = true.
Proof.
  eexists. split; [reflexivity|].
  apply (period_label_spans_all_dates sample_frame _ eq_refl).
Defined.

Lemma present_nil_iff {A} (l : list (option A)) :
  present l = [] <-> forall x, In x l -> x = None.
Proof.
  unfold present. induction l as [|[a|] l IH]; cbn.
  - split; [intros _ x []|reflexivity].
  - split; [discriminate|]. intros H. specialize (H (Some a) (or_introl eq_refl)).
    discriminate.
  - rewrite IH. split.
    + intros H x [<-|Hx]; auto.
    + intros H x Hx. apply H. now right.
Qed.

Lemma data_period_of_None (df : frame) :
  data_period_of df = None <-> forall r, In r df -> OrderDate r = None.
Proof.
  assert (Hall : (forall r, In r df -> OrderDate r = None)
                 <-> present (map OrderDate df) = []).
  { rewrite present_nil_iff. split.
    - intros H x Hx. apply in_map_iff in Hx as (r & <- & Hr). auto.
    - intros H r Hr. apply H. now apply in_map. }
  rewrite Hall. unfold data_period_of, date_min, date_max.
  destruct (present (map OrderDate df)) as [|d ds]; cbn; [tauto|].
  split; [|discriminate].
  destruct (fold_right _ None ds); destruct (fold_right _ None ds); discriminate.
Qed.

(** X11.  When no record of the frame has an order date, the summary is
    not built, and neither is the document; a frame without records is
    one such frame. *)
Theorem no_summary_without_order_date (now : string) (df : frame) :
  (forall r, In r df -> OrderDate r = None) ->
  calculate_kpis df = None /\ main now df = None.
Proof.
  intros H. apply data_period_of_None in H. unfold main, calculate_kpis.
  rewrite H. split; reflexivity.
Qed.

Lemma no_summary_without_order_date_witness :
  (forall r, In r [undated_order "D1" "Completed" "Books" 10 2] -> OrderDate r = None)
  /\ calculate_kpis [undated_order "D1" "Completed" "Books" 10 2] = None
  /\ main "2026-01-01T00:00:00" [undated_order "D1" "Completed" "Books" 10 2] = None.
Proof.
  assert (H : forall r, In r [undated_order "D1" "Completed" "Books" 10 2] ->
                        OrderDate r = None)
    by (intros r [<-|[]]; reflexivity).
  split; [exact H|].
  exact (no_summary_without_order_date "2026-01-01T00:00:00" _ H).
Defined.

(** *** Counting orders once *)

Lemma mem_str_app (s : string) (l1 l2 : list string) :
  mem_str s (l1 ++ l2) = mem_str s l1 || mem_str s l2.
Proof.
  induction l1 as [|x l1 IH]; simpl; [reflexivity|]. now rewrite IH, orb_assoc.
Qed.

Lemma distinct_insert_length (x : string) (l1 l2 : list string) :
  length (distinct (l1 ++ x :: l2))
  = ((if mem_str x (l1 ++ l2) then 0 else 1) + length (distinct (l1 ++ l2)))%nat.
Proof.
  induction l1 as [|a l1 IH]; simpl.
  - destruct (mem_str x l2); reflexivity.
  - rewrite ?mem_str_app in *. simpl.
    destruct (String.eqb_spec a x) as [->|Hne].
    + rewrite String.eqb_refl. simpl. rewrite orb_true_r.
      rewrite IH. destruct (mem_str x l1 || mem_str x l2); reflexivity.
    + assert (E : String.eqb x a = false) by (apply String.eqb_neq; congruence).
      rewrite E. simpl.
      destruct (mem_str a l1 || mem_str a l2) eqn:Ea; simpl; rewrite IH; lia.
Qed.

Lemma present_app {A} (l1 l2 : list (option A)) :
  present (l1 ++ l2)%list = (present l1 ++ present l2)%list.
Proof.
  unfold present. induction l1 as [|[a|] l1 IH]; cbn; [reflexivity| |exact IH].
  f_equal. exact IH.
Qed.

Lemma nunique_insert (id : string) (l1 l2 : list (option string)) :
  nunique (l1 ++ Some id :: l2)%list
  = (if mem_str id (present (l1 ++ l2)%list) then 0 else 1) + nunique (l1 ++ l2)%list.
Proof.
  unfold nunique. rewrite !present_app.
  change (present (Some id :: l2)) with (id :: present l2).
  rewrite (distinct_insert_length id (present l1) (present l2)).
  destruct (mem_str id (present l1 ++ present l2)%list); lia.
Qed.

Lemma completed_app (df1 df2 : frame) :
  completed (df1 ++ df2)%list = (completed df1 ++ completed df2)%list.
Proof. unfold completed. apply List.filter_app. Qed.

Lemma mem_order_id (id : string) (df : frame) :
  mem_str id (present (map Order_Id (completed df))) = true
  <-> exists r, In r df /\ Order_Status r = Some "Completed" /\ Order_Id r = Some id.
Proof.
  rewrite mem_str_In. split.
  - intros H. unfold present in H. apply omap_In in H as (o & Ho & Hid).
    apply in_map_iff in Ho as (r & <- & Hr). apply In_completed in Hr as [Hr Hs].
    exists r. auto.
  - intros (r & Hr & Hs & Hid). apply present_In. rewrite <- Hid. apply in_map.
    apply In_completed. auto.
Qed.

(** X12.  The summary counts an order once, however many lines it has:
    one more completed line with an order id that a completed record
    already has leaves [total_orders] as it is, one with a new id adds
    one to it, and [total_orders] is at most the number of completed
    lines. *)
Theorem kpi_orders_counted_once (df1 df2 : frame) (r : record) (id : string)
    (k k' : kpis) :
  calculate_kpis (df1 ++ df2)%list = Some k ->
  calculate_kpis (df1 ++ r :: df2)%list = Some k' ->
  Order_Status r = Some "Completed" ->
  Order_Id r = Some id ->
  ((exists r0, In r0 (df1 ++ df2)%list /\ Order_Status r0 = Some "Completed"
               /\ Order_Id r0 = Some id) ->
   total_orders k' = total_orders k)
  /\ ((forall r0, In r0 (df1 ++ df2)%list -> Order_Status r0 = Some "Completed" ->
                  Order_Id r0 <> Some id) ->
      total_orders k' = total_orders k + 1)
  /\ 0 <= total_orders k <= Z.of_nat (length (completed (df1 ++ df2)%list)).
Proof.
  unfold calculate_kpis. intros Hk Hk' Hs Hid.
  destruct (data_period_of (df1 ++ df2)%list); [|discriminate].
  destruct (data_period_of (df1 ++ r :: df2)%list); [|discriminate].
  injection Hk as <-. injection Hk' as <-. cbn [total_orders].
  assert (Hc : completed (df1 ++ r :: df2)%list
               = (completed df1 ++ r :: completed df2)%list).
  { rewrite completed_app. f_equal. unfold completed. simpl.
    unfold is_completed. now rewrite Hs. }
  rewrite Hc, completed_app, !map_app. cbn [map]. rewrite Hid, nunique_insert.
  rewrite <- !map_app, <- completed_app.
  split; [|split].
  - intros Hex. apply mem_order_id in Hex. rewrite Hex. lia.
  - intros Hnone.
    destruct (mem_str id (present (map Order_Id (completed (df1 ++ df2)%list)))) eqn:E;
      [|lia].
    apply mem_order_id in E as (r0 & Hr0 & Hs0 & Hid0). now destruct (Hnone r0 Hr0 Hs0).
  - pose proof (nunique_bounds (map Order_Id (completed (df1 ++ df2)%list))) as Hb.
    now rewrite length_map in Hb.
Qed.

Lemma kpi_orders_counted_once_witness :
  exists k k',
    calculate_kpis [january_order; february_order] = Some k
    /\ calculate_kpis [january_order; january_order; february_order] = Some k'
    /\ total_orders k' = total_orders k.
Proof.
  eexists _, _. split; [reflexivity|]. split; [reflexivity|].
  apply (kpi_orders_counted_once [january_order] [february_order] january_order "A1");
    try reflexivity.
  exists january_order. split; [now left|]. split; reflexivity.
Defined.

(** *** Rates *)

Lemma rint_integer (q : Q) (z : Z) : (q == inject_Z z)%Q -> rint q = z.
Proof.
  unfold Qeq, rint. destruct q as [n d]; simpl. intros Hq.
  assert (Hn : n = z * Zpos d) by lia. subst n.
  rewrite Z.div_mul by lia.
  replace (2 * (z * Zpos d - z * Zpos d)) with 0 by lia.
  destruct (Z.ltb_spec 0 (Zpos d)); [reflexivity | lia].
Qed.

Lemma rint_le (q : Q) (z : Z) : (q <= inject_Z z)%Q -> rint q <= z.
Proof.
  unfold Qle, rint. destruct q as [n d]; simpl. intros Hq.
  pose proof (Z.div_mod n (Zpos d) ltac:(lia)) as Hdm.
  pose proof (Z.mod_pos_bound n (Zpos d) ltac:(lia)) as Hb.
  set (f := n / Zpos d) in *. set (r := n mod Zpos d) in *.
  assert (Hf : f <= z) by nia.
  assert (Hr : n - f * Zpos d = r) by lia. rewrite Hr.
  destruct (Z.ltb_spec (2 * r) (Zpos d)); [lia|].
  assert (f < z) by nia.
  destruct (Z.ltb_spec (Zpos d) (2 * r)); [lia|]. destruct (Z.even f); lia.
Qed.

Lemma round_to_le (p : positive) (q : Q) (z : Z) :
  (q <= inject_Z z)%Q -> (round_to p q <= inject_Z z)%Q.
Proof.
  intros Hq. unfold round_to. rewrite Qred_correct.
  assert (H : rint (q * inject_Z (Zpos p)) <= z * Zpos p).
  { apply rint_le. rewrite inject_Z_mult.
    apply Qmult_le_compat_r; [exact Hq|]. unfold Qle; simpl; lia. }
  unfold Qle; simpl. lia.
Qed.

Lemma round_to_fixed (p : positive) (x : Q) (z : Z) :
  (x * inject_Z (Zpos p) == inject_Z z)%Q -> (round_to p x == x)%Q.
Proof.
  intros Hx. unfold round_to. rewrite Qred_correct, (rint_integer _ _ Hx).
  rewrite Qmake_Qdiv, <- Hx. field. unfold Qeq; simpl; lia.
Qed.

Lemma round_to_grid (p : positive) (q : Q) :
  (round_to p q * inject_Z (Zpos p) == inject_Z (rint (q * inject_Z (Zpos p))))%Q.
Proof.
  unfold round_to. rewrite Qred_correct, Qmake_Qdiv. field. unfold Qeq; simpl; lia.
Qed.

Lemma Qsum_indicator (bs : list bool) :
  (0 <= Qsum (map Qof_bool bs) <= inject_Z (Z.of_nat (length bs)))%Q.
Proof.
  induction bs as [|b bs [IH1 IH2]]; [split; apply Qle_refl|].
  cbn [map length]. rewrite Qsum_cons, Nat2Z.inj_succ, <- Z.add_1_l, inject_Z_plus.
  destruct b; cbn [Qof_bool]; split.
  - replace 0%Q with (0 + 0)%Q by reflexivity. apply Qplus_le_compat; [discriminate|exact IH1].
  - apply Qplus_le_compat; [apply Qle_refl | exact IH2].
  - now rewrite Qplus_0_l.
  - rewrite Qplus_0_l. eapply Qle_trans; [exact IH2|].
    rewrite <- (Qplus_0_l (inject_Z (Z.of_nat (length bs)))) at 1.
    apply Qplus_le_compat; [discriminate | apply Qle_refl].
Qed.

(** The percentage of a flag over a group that is not empty. *)
Lemma flag_rate (bs : list bool) :
  bs <> [] ->
  exists p,
    round2 (nmul (mean (map Qof_bool bs)) (of_Z 100)) = Fin p
    /\ (0 <= p <= inject_Z 100)%Q
    /\ (p * inject_Z 100 == inject_Z (rint (p * inject_Z 100)))%Q.
Proof.
  intros Hne. unfold mean, mean_opt. rewrite present_map_Some.
  destruct (map Qof_bool bs) as [|v vs] eqn:E; [destruct bs; [congruence|discriminate]|].
  rewrite <- E. cbn [nmul of_Z round2 nround]. eexists. split; [reflexivity|].
  pose proof (Qsum_indicator bs) as [H0 H1].
  assert (Hlen : length (map Qof_bool bs) = length bs) by apply length_map.
  assert (Hn : (0 < inject_Z (Z.of_nat (length bs)))%Q).
  { destruct bs; [congruence|]. unfold Qlt; simpl. lia. }
  set (m := (Qsum (map Qof_bool bs) / inject_Z (Z.of_nat (length (map Qof_bool bs))))%Q).
  assert (Hm : (0 <= m <= 1)%Q).
  { unfold m. rewrite Hlen. split.
    - apply Qle_shift_div_l; [exact Hn|]. now rewrite Qmult_0_l.
    - apply Qle_shift_div_r; [exact Hn|]. now rewrite Qmult_1_l. }
  assert (Hx : (0 <= Qred (Qred m * inject_Z 100) <= inject_Z 100)%Q).
  { rewrite !Qred_correct. destruct Hm as [Hm0 Hm1]. split.
    - apply Qmult_le_0_compat; [exact Hm0 | discriminate].
    - rewrite <- (Qmult_1_l (inject_Z 100)) at 2.
      apply Qmult_le_compat_r; [exact Hm1 | discriminate]. }
  split; [split|].
  - apply round_to_nonneg, Hx.
  - apply round_to_le, Hx.
  - pose proof (round_to_grid 100 (Qred (Qred m * inject_Z 100))) as Hg.
    rewrite (rint_integer _ _ Hg). exact Hg.
Qed.

(** X13.  With at least one completed record, the prime-member and
    late-delivery rates of the summary are finite and between 0 and
    100, and the numbers of orders and of customers are between 0 and
    the number of completed lines. *)
Theorem kpi_rates_are_percentages (df : frame) (k : kpis) :
  calculate_kpis df = Some k ->
  completed df <> [] ->
  (exists p, prime_member_pct k = Fin p /\ (0 <= p <= inject_Z 100)%Q)
  /\ (exists p, late_delivery_pct k = Fin p /\ (0 <= p <= inject_Z 100)%Q)
  /\ 0 <= total_orders k <= Z.of_nat (length (completed df))
  /\ 0 <= unique_customers k <= Z.of_nat (length (completed df)).
Proof.
  unfold calculate_kpis. destruct (data_period_of df); [|discriminate].
  intros [= <-] Hne.
  cbn [prime_member_pct late_delivery_pct total_orders unique_customers].
  split; [|split; [|split]].
  - rewrite <- (map_map Prime_Member Qof_bool).
    destruct (flag_rate (map Prime_Member (completed df))) as (p & Hp & Hb & _).
    + destruct (completed df); [congruence|discriminate].
    + eauto.
  - rewrite <- (map_map IsLate Qof_bool).
    destruct (flag_rate (map IsLate (completed df))) as (p & Hp & Hb & _).
    + destruct (completed df); [congruence|discriminate].
    + eauto.
  - pose proof (nunique_bounds (map Order_Id (completed df))) as Hb.
    now rewrite length_map in Hb.
  - pose proof (nunique_bounds (map Buyer_Email (completed df))) as Hb.
    now rewrite length_map in Hb.
Qed.

Lemma kpi_rates_are_percentages_witness :
  exists k,
    calculate_kpis [january_order; cancelled_march_order] = Some k
    /\ completed [january_order; cancelled_march_order] <> []
    /\ exists p, prime_member_pct k = Fin p /\ (0 <= p <= inject_Z 100)%Q.
Proof.
  eexists. split; [reflexivity|].
  assert (H : completed [january_order; cancelled_march_order] <> [])
    by (intros H; vm_compute in H; discriminate).
  split; [exact H|].
  apply (kpi_rates_are_percentages [january_order; cancelled_march_order] _ eq_refl H).
Defined.

(** *** Shipping performance *)

(** X14.  In every row of the shipping view the late rate is finite and
    between 0 and 100, and the on-time rate is 100 minus the late
    rate. *)
Theorem shipping_rates_complement (df : frame) :
  Forall (fun row =>
            exists late on_time,
              sh_late_rate row = Fin late
              /\ sh_on_time_rate row = Fin on_time
              /\ (0 <= late <= inject_Z 100)%Q
              /\ (on_time == inject_Z 100 - late)%Q)
    (calculate_shipping_performance df).
Proof.
  unfold calculate_shipping_performance.
  apply Forall_firstn, Forall_sort_values. unfold shipping_table.
  apply Forall_map, List.Forall_forall. intros [k g] Hg. cbn [snd fst].
  destruct (groupby_In string_eqb_eq _ _ _ _ Hg) as (Hne & _ & _).
  cbn [sh_late_rate sh_on_time_rate]. unfold late_rate_of.
  rewrite <- (map_map IsLate Qof_bool).
  destruct (flag_rate (map IsLate g)) as (l & Hl & Hb & Hgrid).
  { destruct g; [congruence|discriminate]. }
  rewrite Hl. eexists l, _. split; [reflexivity|].
  cbn [nsub nneg nadd of_Z round2 nround]. split; [reflexivity|]. split; [exact Hb|].
  assert (E : (Qred (inject_Z 100 + Qred (- l)) == inject_Z 100 - l)%Q)
    by (rewrite !Qred_correct; reflexivity).
  rewrite <- E.
  apply (round_to_fixed 100 _ (10000 - rint (l * inject_Z 100))).
  rewrite E. unfold Zminus. rewrite inject_Z_plus, inject_Z_opp, <- Hgrid.
  change (inject_Z 10000) with (inject_Z 100 * inject_Z 100)%Q. ring.
Qed.

(** *** Monthly trend *)

(** X15.  Down the rows of the monthly view, the growth of a row is the
    change of its rounded revenue against the rounded revenue of the
    row before it, in per cent and within half a cent, when that
    revenue is not zero; and the moving average of a row that has two
    rows before it is the mean of the three rounded revenues, within
    half a cent.  The row before is the month before among the months
    that have completed records. *)
Theorem monthly_growth_and_average (df : frame) (i : nat) (a b : monthly_row) :
  nth_error (calculate_monthly_trends df) i = Some a ->
  nth_error (calculate_monthly_trends df) (S i) = Some b ->
  (~ (mt_revenue a == 0)%Q ->
     exists g,
       mt_revenue_growth b = Fin g
       /\ (Qabs (g - (mt_revenue b / mt_revenue a - 1) * inject_Z 100) <= 1 # 200)%Q)
  /\ (forall c,
        nth_error (calculate_monthly_trends df) (S (S i)) = Some c ->
        exists m,
          mt_revenue_ma3 c = Fin m
          /\ (Qabs (m - (mt_revenue a + mt_revenue b + mt_revenue c) / 3)
              <= 1 # 200)%Q).
Proof.
  intros Ha Hb. split.
  - intros Hne. rewrite (monthly_consecutive df i a b Ha Hb).
    apply Qzero_false_iff in Hne. unfold ndiv. rewrite Hne.
    cbn [nsub nneg nadd nmul of_Z round2 nround fillna isna].
    eexists. split; [reflexivity|].
    set (q := Qred (Qred (Qred (mt_revenue b / mt_revenue a) + Qred (- (1))) * inject_Z 100)).
    assert (E : (q == (mt_revenue b / mt_revenue a - 1) * inject_Z 100)%Q).
    { unfold q. rewrite !Qred_correct. reflexivity. }
    rewrite <- E. apply (round_to_error 100).
  - intros c Hc. rewrite (monthly_three df i a b c Ha Hb Hc).
    eexists. split; [reflexivity|].
    set (q := Qred ((mt_revenue a + mt_revenue b + mt_revenue c) / 3)).
    assert (E : (q == (mt_revenue a + mt_revenue b + mt_revenue c) / 3)%Q)
      by (unfold q; apply Qred_correct).
    rewrite <- E. apply (round_to_error 100).
Qed.

Lemma monthly_growth_and_average_witness :
  exists a b c,
    nth_error (calculate_monthly_trends three_months) 0 = Some a
    /\ nth_error (calculate_monthly_trends three_months) 1 = Some b
    /\ nth_error (calculate_monthly_trends three_months) 2 = Some c
    /\ ~ (mt_revenue a == 0)%Q
    /\ (exists g,
           mt_revenue_growth b = Fin g
           /\ (Qabs (g - (mt_revenue b / mt_revenue a - 1) * inject_Z 100) <= 1 # 200)%Q)
    /\ (exists m,
           mt_revenue_ma3 c = Fin m
           /\ (Qabs (m - (mt_revenue a + mt_revenue b + mt_revenue c) / 3)
               <= 1 # 200)%Q).
Proof.
  eexists _, _, _.
  split; [reflexivity|]. split; [reflexivity|]. split; [reflexivity|].
  assert (H : ~ (100 == 0)%Q) by discriminate.
  split; [exact H|].
  destruct (monthly_growth_and_average three_months 0 _ _ eq_refl eq_refl) as [Hg Hm].
  split; [exact (Hg H)|]. exact (Hm _ eq_refl).
Defined.

(** X16.  The monthly view has one row per year-month key, and a key
    has a row exactly when some completed record carries it. *)
Theorem monthly_rows_by_month (df : frame) :
  List.NoDup (map mt_month (calculate_monthly_trends df))
  /\ (forall m,
        In m (map mt_month (calculate_monthly_trends df))
        <-> exists r, In r df /\ Order_Status r = Some "Completed" /\ YearMonth r = m).
Proof.
  rewrite monthly_months. split; [apply group_keys_string_NoDup|].
  intros m. rewrite (group_keys_In string_eqb_eq), in_map_iff. split.
  - intros (r & <- & Hr). apply In_completed in Hr as [Hr Hs]. eauto.
  - intros (r & Hr & Hs & <-). exists r. split; [reflexivity|]. apply In_completed. auto.
Qed.

(** *** Day-of-week pattern *)

Lemma shares_near (t c : Q) (revs : list Q) :
  ~ (t == 0)%Q -> (Qsum revs == c * t)%Q ->
  exists s,
    nsum (map (fun a => pct (Fin a) (Fin t)) revs) = Fin s
    /\ (Qabs (s - inject_Z 100 * c) <= inject_Z (Z.of_nat (length revs)) * (1 # 200))%Q.
Proof.
  intros Ht Hsum. apply Qzero_false_iff in Ht as Hz.
  assert (E : map (fun a => pct (Fin a) (Fin t)) revs = map Fin (map (share_of t) revs)).
  { rewrite map_map. apply map_ext. intros a. now apply pct_nonzero. }
  unfold nsum. rewrite E, nsum_Fin. eexists. split; [reflexivity|].
  pose proof (shares_sum_error t revs) as Herr.
  assert (E2 : (Qsum revs / t * inject_Z 100 == inject_Z 100 * c)%Q).
  { rewrite Hsum. field. exact Ht. }
  now rewrite E2 in Herr.
Qed.

(** X17.  When the rounded revenues of the days do not sum to zero, the
    rows of the day-of-week view are in ascending order of the day
    index, and their revenue indices are finite and sum to 100 times
    the number of rows, within 0.005 per row. *)
Theorem day_of_week_indices (df : frame) :
  ~ (Qsum (map dw_revenue (calculate_day_of_week_analysis df)) == 0)%Q ->
  StronglySorted (fun a b => dw_day_num a <= dw_day_num b)
    (calculate_day_of_week_analysis df)
  /\ exists s,
       nsum (map dw_index (calculate_day_of_week_analysis df)) = Fin s
       /\ (Qabs (s - inject_Z 100
                     * inject_Z (Z.of_nat (length (calculate_day_of_week_analysis df))))
           <= inject_Z (Z.of_nat (length (calculate_day_of_week_analysis df)))
              * (1 # 200))%Q.
Proof.
  unfold calculate_day_of_week_analysis. intros Hne. split.
  - eapply StronglySorted_impl.
    2: { apply (sort_values_strongly_sorted (ascZ dw_day_num)).
         - unfold ascZ. intros x y Hxy. apply Z.leb_gt in Hxy. apply Z.leb_le. lia.
         - unfold ascZ. intros x y z Hxy Hyz.
           apply Z.leb_le in Hxy, Hyz. apply Z.leb_le. lia. }
    intros a b Hab. unfold ascZ in Hab. now apply Z.leb_le in Hab.
  - assert (Htab : forall r, In r (day_table df) ->
                dw_index r
                = pct (Fin (dw_revenue r)) (mean (map dw_revenue (day_table df)))).
    { intros r Hr. unfold day_table in Hr |- *. apply in_map_iff in Hr as (g & <- & _).
      cbn [dw_index dw_revenue]. now rewrite map_map. }
    revert Hne Htab. generalize (day_table df). intros T Hne Htab.
    set (S := sort_values (ascZ dw_day_num) T) in *.
    assert (HST : Permutation S T) by apply sort_values_perm.
    assert (Hsum : (Qsum (map dw_revenue S) == Qsum (map dw_revenue T))%Q)
      by apply (Qsum_perm _ _ (Permutation_map dw_revenue HST)).
    assert (Hlen : length S = length T) by apply sort_values_length.
    assert (Hmean : exists t, mean (map dw_revenue T) = Fin t
                      /\ (Qsum (map dw_revenue T)
                          == inject_Z (Z.of_nat (length T)) * t)%Q).
    { unfold mean, mean_opt. rewrite present_map_Some.
      destruct T as [|r T'].
      - exfalso. apply Hne. rewrite Hsum. reflexivity.
      - cbn [map]. eexists. split; [reflexivity|].
        rewrite Qred_correct. cbn [length]. rewrite length_map. field.
        unfold Qeq; simpl. lia. }
    destruct Hmean as (t & Ht & Hsum2).
    assert (Hshare : map dw_index S
                     = map (fun a => pct (Fin a) (Fin t)) (map dw_revenue S)).
    { rewrite map_map. apply map_ext_in. intros r Hr.
      apply (Permutation_in _ HST) in Hr. rewrite <- Ht. now apply Htab. }
    rewrite Hshare, <- (length_map dw_revenue S).
    apply shares_near.
    + intros Ht0. apply Hne. rewrite Hsum, Hsum2, Ht0. ring.
    + rewrite Hsum, Hsum2, length_map, Hlen. reflexivity.
Qed.

Lemma day_of_week_indices_witness :
  ~ (Qsum (map dw_revenue (calculate_day_of_week_analysis sample_frame)) == 0)%Q
  /\ exists s,
       nsum (map dw_index (calculate_day_of_week_analysis sample_frame)) = Fin s
       /\ (Qabs (s - inject_Z 100
                     * inject_Z (Z.of_nat (length (calculate_day_of_week_analysis sample_frame))))
           <= inject_Z (Z.of_nat (length (calculate_day_of_week_analysis sample_frame)))
              * (1 # 200))%Q.
Proof.
  assert (H : ~ (Qsum (map dw_revenue (calculate_day_of_week_analysis sample_frame)) == 0)%Q)
    by (intros H; vm_compute in H; discriminate).
  split; [exact H|]. exact (proj2 (day_of_week_indices sample_frame H)).
Defined.

(** *** Category performance *)

Lemma with_pareto_In_agg (rows : list category_agg) (r : category_row) :
  In r (with_pareto rows) ->
  exists a, In a rows
    /\ cp_category r = ca_category a /\ cp_revenue r = ca_revenue a
    /\ cp_profit r = ca_profit a /\ cp_orders r = ca_orders a
    /\ cp_units r = ca_units a.
Proof.
  unfold with_pareto. generalize (cumsum (map ca_revenue_share rows)).
  induction rows as [|a rows IH]; intros [|c cs]; simpl; try tauto.
  intros [<-|Hin].
  - exists a. simpl. auto 10.
  - destruct (IH cs Hin) as (a' & Ha' & Hrest). exists a'. auto.
Qed.

Lemma with_pareto_categories (rows : list category_agg) :
  map cp_category (with_pareto rows) = map ca_category rows.
Proof.
  unfold with_pareto. apply map_zip_with_l; [reflexivity|].
  now rewrite cumsum_length, length_map.
Qed.

Lemma category_view_categories (df : frame) :
  Permutation (map cp_category (calculate_category_performance df))
              (group_keys (map Category (completed df))).
Proof.
  unfold calculate_category_performance. rewrite with_pareto_categories.
  rewrite (Permutation_map ca_category (sort_values_perm _ _)).
  unfold category_table. rewrite map_map. simpl.
  change (map (fun g : string * frame => fst g)
              (groupby (fun r => Some (Category r)) (completed df)))
    with (map fst (groupby (fun r => Some (Category r)) (completed df))).
  rewrite groupby_keys.
  assert (E : forall l : frame, omap (fun r => Some (Category r)) l = map Category l).
  { induction l as [|r l IH]; [reflexivity|]. cbn. congruence. }
  now rewrite E.
Qed.

(** X18.  The category view has one row per category, a category has a
    row exactly when some completed record carries it, and the revenue,
    profit, order count and units of a row are those of all completed
    records of its category, which are never none: the records whose
    missing category became "Unknown" are together in the row
    "Unknown". *)
Theorem category_rows_aggregate_their_records (df : frame) :
  List.NoDup (map cp_category (calculate_category_performance df))
  /\ (forall c, In c (map cp_category (calculate_category_performance df))
                <-> exists r, In r df /\ Order_Status r = Some "Completed"
                              /\ Category r = c)
  /\ Forall (fun row =>
               category_records (cp_category row) df <> []
               /\ cp_revenue row
                  = round_to 100 (Qsum (map Revenue_USD (category_records (cp_category row) df)))
               /\ cp_profit row
                  = round_to 100 (Qsum (map Profit (category_records (cp_category row) df)))
               /\ cp_orders row
                  = nunique (map Order_Id (category_records (cp_category row) df))
               /\ cp_units row
                  = Qsum (map UnitsSold (category_records (cp_category row) df)))
            (calculate_category_performance df).
Proof.
  pose proof (category_view_categories df) as Hp. split; [|split].
  - eapply Permutation_NoDup; [symmetry; exact Hp|]. apply group_keys_string_NoDup.
  - intros c. split.
    + intros Hc. apply (Permutation_in _ Hp) in Hc.
      apply (group_keys_In string_eqb_eq), in_map_iff in Hc as (r & Hk & Hr).
      apply In_completed in Hr as [Hr Hs]. eauto.
    + intros (r & Hr & Hs & Hk). apply (Permutation_in _ (Permutation_sym Hp)).
      apply (group_keys_In string_eqb_eq), in_map_iff. exists r. split; [exact Hk|].
      apply In_completed. auto.
  - apply List.Forall_forall. intros row Hrow.
    unfold calculate_category_performance in Hrow.
    apply with_pareto_In_agg in Hrow as (a & Ha & -> & -> & -> & -> & ->).
    apply sort_values_In in Ha. unfold category_table in Ha.
    apply in_map_iff in Ha as ([k g] & <- & Hg). simpl.
    apply (groupby_In string_eqb_eq) in Hg as (Hne & Hg & _).
    change (category_records k df) with (List.filter (has_key (fun r => Some (Category r)) k)
                                           (completed df)).
    rewrite <- Hg. auto.
Qed.

(** ** The cleaning step *)

Section NormalizerFacts.
Variable parse_numeric : string -> option Q.
Variable parse_datetime : string -> option date.
Variable datetime_of_number : Q -> option date.

Local Abbreviation load := (load_and_clean_data parse_numeric parse_datetime datetime_of_number).
Local Abbreviation to_dt := (to_datetime parse_datetime datetime_of_number).
Local Abbreviation to_dtc := (to_datetime_coerce parse_datetime datetime_of_number).
Local Abbreviation clean := (clean_numeric parse_numeric).
Local Abbreviation clean_col := (clean_numeric_col parse_numeric).

Lemma fillna_cell_idem v c : v <> CNull -> fillna_cell v (fillna_cell v c) = fillna_cell v c.
Proof. destruct c; simpl; auto. destruct v; simpl; congruence. Qed.

Lemma to_datetime_fixed c c' : to_dt c = Some c' -> to_dt c' = Some c'.
Proof.
  destruct c; simpl; intros Hc; simplify_eq; auto.
  - destruct (parse_datetime s); simplify_eq/=; auto.
  - destruct (datetime_of_number q); simplify_eq/=; auto.
Qed.

Lemma to_datetime_coerce_idem c : to_dtc (to_dtc c) = to_dtc c.
Proof.
  unfold to_datetime_coerce at 2 3.
  destruct (to_dt c) as [c'|] eqn:E; [|reflexivity].
  unfold to_datetime_coerce. now rewrite (to_datetime_fixed _ _ E).
Qed.

Lemma mapM_to_datetime_fixed l l' :
  mapM to_dt l = Some l' -> mapM to_dt l' = Some l'.
Proof.
  rewrite !mapM_Some. induction 1; constructor; eauto using to_datetime_fixed.
Qed.

Lemma clean_numeric_idem c : clean (clean c) = clean c.
Proof.
  destruct c; simpl; auto.
  unfold clean_numeric; simpl. destruct (parse_numeric s); reflexivity.
Qed.

Lemma astype_bool_idem c :
  astype_bool (fillna_cell (CNum 0) (astype_bool (fillna_cell (CNum 0) c)))
  = astype_bool (fillna_cell (CNum 0) c).
Proof. reflexivity. Qed.

(** Columns that a step leaves as they are. *)
Lemma derive_col_lookup_ne src dst f df df' k :
  derive_col src dst f df = Some df' -> k <> dst -> df' !! k = df !! k.
Proof.
  unfold derive_col. destruct (df !! src); simpl; intros; simplify_eq.
  now rewrite lookup_insert_ne.
Qed.

Lemma clean_col_lookup_ne df col k :
  k <> col -> clean_col df col !! k = df !! k.
Proof.
  unfold clean_numeric_col. intros Hk. destruct (df !! col); [|reflexivity].
  now rewrite lookup_insert_ne.
Qed.

Lemma clean_col_lookup_eq df col :
  clean_col df col !! col = (fmap clean) <$> (df !! col).
Proof.
  unfold clean_numeric_col. destruct (df !! col) eqn:E; simpl.
  - now rewrite lookup_insert_eq.
  - now rewrite E.
Qed.

Lemma clean_col_id df col :
  (forall c, df !! col = Some c -> clean <$> c = c) -> clean_col df col = df.
Proof.
  unfold clean_numeric_col. intros H. destruct (df !! col) eqn:E; [|reflexivity].
  rewrite (H _ eq_refl). now apply insert_id.
Qed.

Lemma derive_col_id src dst f df c :
  df !! src = Some c -> df !! dst = Some (f <$> c) -> derive_col src dst f df = Some df.
Proof.
  unfold derive_col. intros -> Hd. simpl. f_equal. now apply insert_id.
Qed.

Lemma update_col_id name g df c :
  df !! name = Some c -> g c = Some c -> update_col name g df = Some df.
Proof.
  unfold update_col. intros Hn Hg. rewrite Hn. simpl. rewrite Hg. simpl. f_equal.
  now apply insert_id.
Qed.

Lemma derive_col_lookup_eq src dst f df df' :
  derive_col src dst f df = Some df' ->
  exists c, df !! src = Some c /\ df' !! dst = Some (f <$> c).
Proof.
  unfold derive_col. destruct (df !! src) as [c|]; simpl; intros; simplify_eq.
  exists c. split; [reflexivity|]. now rewrite lookup_insert_eq.
Qed.

Lemma update_col_lookup_ne name g df df' k :
  update_col name g df = Some df' -> k <> name -> df' !! k = df !! k.
Proof.
  unfold update_col. destruct (df !! name) as [c|]; simpl; [|discriminate].
  destruct (g c); simpl; intros; simplify_eq. now rewrite lookup_insert_ne.
Qed.

Lemma update_col_lookup_eq name g df df' :
  update_col name g df = Some df' ->
  exists c c', df !! name = Some c /\ g c = Some c' /\ df' !! name = Some c'.
Proof.
  unfold update_col. destruct (df !! name) as [c|]; simpl; [|discriminate].
  destruct (g c) as [c'|] eqn:E; simpl; intros; simplify_eq.
  exists c, c'. repeat split; auto. now rewrite lookup_insert_eq.
Qed.

Lemma derive_col_self_id name f df c0 :
  (forall x, f (f x) = f x) ->
  df !! name = Some (f <$> c0) -> derive_col name name f df = Some df.
Proof.
  intros Hf Hn. eapply derive_col_id; [exact Hn|].
  rewrite Hn. f_equal. rewrite <- list_fmap_compose.
  apply list_fmap_ext. intros ? x _. simpl. now rewrite Hf.
Qed.

Lemma clean_col_Cleaned df col k :
  k = col \/ Cleaned parse_numeric df k -> Cleaned parse_numeric (clean_col df col) k.
Proof.
  intros Hk l. destruct (decide (k = col)) as [->|Hne].
  - rewrite clean_col_lookup_eq. destruct (df !! col) as [c|]; simpl; [|discriminate].
    intros [= <-]. rewrite <- list_fmap_compose.
    apply list_fmap_ext. intros ? x _. simpl. apply clean_numeric_idem.
  - rewrite clean_col_lookup_ne by assumption. destruct Hk as [?|Hk]; [tauto|apply Hk].
Qed.

Lemma clean_cols_Cleaned cols df k :
  In k cols \/ Cleaned parse_numeric df k -> Cleaned parse_numeric (foldl clean_col df cols) k.
Proof.
  revert df. induction cols as [|c cols IH]; simpl; intros df Hk; [tauto|].
  apply IH. destruct Hk as [[->|Hk]|Hk]; auto using clean_col_Cleaned.
Qed.

Lemma clean_cols_lookup_ne cols df k :
  ~ In k cols -> foldl clean_col df cols !! k = df !! k.
Proof.
  revert df. induction cols as [|c cols IH]; simpl; intros df Hk; [reflexivity|].
  rewrite IH by tauto. apply clean_col_lookup_ne. intros ->. tauto.
Qed.

Lemma clean_cols_id cols df :
  (forall k, In k cols -> Cleaned parse_numeric df k) -> foldl clean_col df cols = df.
Proof.
  induction cols as [|c cols IH]; simpl; intros Hk; [reflexivity|].
  rewrite clean_col_id by (apply Hk; now left).
  apply IH. intros k Hin. apply Hk. now right.
Qed.

Ltac back :=
  repeat match goal with
  | H : derive_col _ _ _ ?d = Some ?d' |- context [?d' !! ?k] =>
      rewrite (derive_col_lookup_ne _ _ _ _ _ k H) by done
  | H : update_col _ _ ?d = Some ?d' |- context [?d' !! ?k] =>
      rewrite (update_col_lookup_ne _ _ _ _ k H) by done
  | |- context [foldl clean_col ?d numeric_cols !! ?k] =>
      rewrite (clean_cols_lookup_ne numeric_cols d k) by (vm_compute; intuition discriminate)
  end.

Ltac self_step H idem :=
  let c := fresh "c" in
  let E := fresh "E" in
  destruct (derive_col_lookup_eq _ _ _ _ _ H) as (c & _ & E);
  rewrite (derive_col_self_id _ _ _ c idem) by (back; exact E);
  clear c E; cbn [mbind option_bind].

Ltac derived_step H :=
  let c := fresh "c" in
  let Es := fresh "Es" in
  let Ed := fresh "Ed" in
  destruct (derive_col_lookup_eq _ _ _ _ _ H) as (c & Es & Ed);
  revert Es; back; intros Es;
  rewrite (derive_col_id _ _ _ _ c) by (back; assumption);
  clear c Es Ed; cbn [mbind option_bind].

(** C6.  Cleaning a frame that came out of the cleaning step succeeds
    and gives the same frame back, column for column. *)
Theorem normalizer_idempotent df df' :
  load_and_clean_data parse_numeric parse_datetime datetime_of_number df = Some df' ->
  load_and_clean_data parse_numeric parse_datetime datetime_of_number df' = Some df'.
Proof.
  unfold load_and_clean_data at 1. intros H.
  repeat match type of H with
  | (_ ≫= _) = Some _ => apply bind_Some in H as (? & ? & H)
  end.
  simplify_eq.
  unfold load_and_clean_data.
  self_step H0 (fun c => fillna_cell_idem (CStr "Unknown") c ltac:(discriminate)).
  self_step H1 (fun c => fillna_cell_idem (CStr "Unknown Brand") c ltac:(discriminate)).
  self_step H2 (fun c => fillna_cell_idem (CStr "Unknown") c ltac:(discriminate)).
  self_step H3 (fun c => fillna_cell_idem (CStr "Unknown") c ltac:(discriminate)).
  self_step H4 (fun c => fillna_cell_idem (CStr "Unknown") c ltac:(discriminate)).
  self_step H5 (fun c => fillna_cell_idem (CStr "Unknown") c ltac:(discriminate)).
  destruct (update_col_lookup_eq _ _ _ _ H6) as (c & c' & _ & Hg & E).
  rewrite (update_col_id _ _ _ c') by (back; eauto using mapM_to_datetime_fixed).
  clear c c' Hg E. cbn [mbind option_bind].
  self_step H7 to_datetime_coerce_idem.
  self_step H8 to_datetime_coerce_idem.
  rewrite clean_cols_id.
  2: { intros k Hin l. simpl in Hin.
       repeat (destruct Hin as [<-|Hin];
               [back; apply clean_cols_Cleaned; left; vm_compute; tauto|]).
       destruct Hin. }
  cbn [mbind option_bind].
  self_step H10 astype_bool_idem.
  self_step H11 (fun c => fillna_cell_idem (CStr "No") c ltac:(discriminate)).
  derived_step H12. derived_step H13. derived_step H14. derived_step H15.
  derived_step H16. derived_step H17. derived_step H18.
  reflexivity.
Qed.

(** C10.  The cleaning step turns every value of the prime-member
    column into a truth value: false for a missing value, [False],
    the empty text and zero, true for every other value, whatever it
    says. *)
Theorem prime_member_coercion df df' :
  load_and_clean_data parse_numeric parse_datetime datetime_of_number df = Some df' ->
  exists raw out,
    df !! "Prime_Member" = Some raw
    /\ df' !! "Prime_Member" = Some out
    /\ Forall2 prime_coerced raw out.
Proof.
  unfold load_and_clean_data. intros H.
  repeat match type of H with
  | (_ ≫= _) = Some _ => apply bind_Some in H as (? & ? & H)
  end.
  simplify_eq.
  destruct (derive_col_lookup_eq _ _ _ _ _ H10) as (raw & Es & Ed).
  revert Es; back; intros Es.
  exists raw, ((fun c => astype_bool (fillna_cell (CNum 0) c)) <$> raw).
  split; [exact Es|]. split; [back; exact Ed|].
  clear. induction raw as [|x raw IH]; constructor; [|exact IH].
  unfold prime_coerced. exists (truthy (fillna_cell (CNum 0) x)). split; [reflexivity|].
  destruct x as [|s|q|b|d]; simpl.
  - intuition.
  - destruct s; simpl; split; intros Hs; try discriminate; auto.
    + destruct Hs as [|[|[|(q & ? & _)]]]; discriminate.
  - rewrite negb_false_iff, Qzero_iff. split.
    + intros Hq. right. right. right. eauto.
    + intros [|[|[|(q' & [= <-] & Hq)]]]; try discriminate. exact Hq.
  - split; [intros ->; auto|].
    intros [|[[= ->]|[|(q & ? & _)]]]; try discriminate. reflexivity.
  - split; [discriminate|].
    intros [|[|[|(q & ? & _)]]]; discriminate.
Qed.

(** *** Further facts on the cleaning step *)

Lemma derive_col_Some src dst f df :
  is_Some (df !! src) -> exists df', derive_col src dst f df = Some df'.
Proof. intros [c Hc]. unfold derive_col. rewrite Hc. simpl. eauto. Qed.

Lemma derive_col_src src dst f df df' :
  derive_col src dst f df = Some df' -> is_Some (df !! src).
Proof. unfold derive_col. destruct (df !! src); [eauto | discriminate]. Qed.

Lemma derive_col_Rows n src dst f df df' :
  derive_col src dst f df = Some df' -> Rows n df -> Rows n df'.
Proof.
  unfold derive_col. destruct (df !! src) as [c|] eqn:E; simpl; [|discriminate].
  intros [= <-] Hn k c'. destruct (decide (k = dst)) as [->|Hne].
  - rewrite lookup_insert_eq. intros [= <-]. rewrite length_fmap. eauto.
  - rewrite lookup_insert_ne by congruence. apply Hn.
Qed.

Lemma update_col_mapM_Rows n name (g : cell -> option cell) df df' :
  update_col name (mapM g) df = Some df' -> Rows n df -> Rows n df'.
Proof.
  unfold update_col. destruct (df !! name) as [c|] eqn:E; simpl; [|discriminate].
  destruct (mapM g c) as [c'|] eqn:Eg; simpl; [|discriminate].
  intros [= <-] Hn k c''. destruct (decide (k = name)) as [->|Hne].
  - rewrite lookup_insert_eq. intros [= <-].
    rewrite <- (length_mapM _ _ _ Eg). eauto.
  - rewrite lookup_insert_ne by congruence. apply Hn.
Qed.

Lemma clean_cols_Rows n cols df : Rows n df -> Rows n (foldl clean_col df cols).
Proof.
  revert df. induction cols as [|col cols IH]; simpl; intros df Hn; [exact Hn|].
  apply IH. intros k c. destruct (decide (k = col)) as [->|Hne].
  - rewrite clean_col_lookup_eq. destruct (df !! col) as [c0|] eqn:E; simpl; [|discriminate].
    intros [= <-]. rewrite length_fmap. eauto.
  - rewrite clean_col_lookup_ne by assumption. apply Hn.
Qed.

Lemma derive_col_keeps src dst f df df' k :
  derive_col src dst f df = Some df' -> is_Some (df !! k) -> is_Some (df' !! k).
Proof.
  intros H Hk. destruct (decide (k = dst)) as [->|Hne].
  - destruct (derive_col_lookup_eq _ _ _ _ _ H) as (c & _ & ->). eauto.
  - now rewrite (derive_col_lookup_ne _ _ _ _ _ k H).
Qed.

Lemma update_col_keeps name g df df' k :
  update_col name g df = Some df' -> is_Some (df !! k) -> is_Some (df' !! k).
Proof.
  intros H Hk. destruct (decide (k = name)) as [->|Hne].
  - destruct (update_col_lookup_eq _ _ _ _ H) as (c & c' & _ & _ & ->). eauto.
  - now rewrite (update_col_lookup_ne _ _ _ _ k H).
Qed.

Lemma clean_cols_keeps cols df k :
  is_Some (df !! k) -> is_Some (foldl clean_col df cols !! k).
Proof.
  revert df. induction cols as [|col cols IH]; simpl; intros df Hk; [exact Hk|].
  apply IH. destruct (decide (k = col)) as [->|Hne].
  - rewrite clean_col_lookup_eq. destruct Hk as [c ->]. simpl. eauto.
  - now rewrite clean_col_lookup_ne.
Qed.

Ltac invert_load H :=
  unfold load_and_clean_data in H;
  repeat match type of H with
  | (_ ≫= _) = Some _ => apply bind_Some in H as (? & ? & H)
  end;
  simplify_eq.

(** X20.  The cleaning step keeps every column of the raw frame and the
    number of rows: when all columns of the raw frame have [n] rows, so
    have all columns of the cleaned frame, the added ones included. *)
Theorem cleaning_keeps_rows_and_columns n df df' :
  load_and_clean_data parse_numeric parse_datetime datetime_of_number df = Some df' ->
  Rows n df ->
  Rows n df' /\ forall k, is_Some (df !! k) -> is_Some (df' !! k).
Proof.
  intros H Hn. invert_load H. split.
  - repeat match goal with
    | H : derive_col _ _ _ _ = Some ?d |- Rows n ?d =>
        apply (derive_col_Rows n _ _ _ _ _ H)
    | H : update_col _ _ _ = Some ?d |- Rows n ?d =>
        apply (update_col_mapM_Rows n _ _ _ _ H)
    | |- Rows n (foldl _ _ _) => apply clean_cols_Rows
    end.
    exact Hn.
  - intros k Hk.
    repeat match goal with
    | H : derive_col _ _ _ _ = Some ?d |- is_Some (?d !! k) =>
        apply (derive_col_keeps _ _ _ _ _ k H)
    | H : update_col _ _ _ = Some ?d |- is_Some (?d !! k) =>
        apply (update_col_keeps _ _ _ _ k H)
    | |- is_Some (foldl _ _ _ !! k) => apply clean_cols_keeps
    end.
    exact Hk.
Qed.

Lemma update_col_Some name g df c :
  df !! name = Some c -> is_Some (g c) -> exists df', update_col name g df = Some df'.
Proof.
  intros Hc [c' Hg]. unfold update_col. rewrite Hc. simpl. rewrite Hg. simpl. eauto.
Qed.

(** A column that an earlier step has just written is there. *)
Ltac written :=
  match goal with
  | H : derive_col _ ?dst _ _ = Some ?d |- is_Some (?d !! ?dst) =>
      let c := fresh in
      destruct (derive_col_lookup_eq _ _ _ _ _ H) as (c & _ & ->); eauto
  | H : update_col ?n _ _ = Some ?d |- is_Some (?d !! ?n) =>
      let c := fresh in let c' := fresh in
      destruct (update_col_lookup_eq _ _ _ _ H) as (c & c' & _ & _ & ->); eauto
  end.

Ltac in_list := simpl; repeat (first [left; reflexivity | right]).

Ltac run_derive Hcols :=
  match goal with
  | |- context [derive_col ?src ?dst ?f ?d ≫= _] =>
      let d' := fresh "d" in
      let Hd := fresh "Hd" in
      destruct (derive_col_Some src dst f d) as [d' Hd];
      [back; solve [apply Hcols; in_list | written]
      | rewrite Hd; cbn [mbind option_bind]]
  end.

(** X19.  The cleaning step fails in two cases only: one of the eleven
    columns it reads unconditionally is not in the frame, or a value of
    the order-date column does not convert to a timestamp.  Values
    that do not convert in the other date columns or in the numeric
    columns, and numeric columns that are not there, never make it
    fail. *)
Theorem cleaning_succeeds_iff df :
  is_Some (load_and_clean_data parse_numeric parse_datetime datetime_of_number df)
  <-> (forall name, In name mandatory_columns -> is_Some (df !! name))
      /\ (forall c, df !! "OrderDate" = Some c ->
                    Forall (fun x => is_Some (to_datetime parse_datetime
                                                datetime_of_number x)) c).
Proof.
  split.
  - intros [df' H]. invert_load H. split.
    + intros name Hin. simpl in Hin.
      repeat (destruct Hin as [<-|Hin];
              [match goal with
               | H : derive_col ?n _ _ ?d = Some _ |- is_Some (_ !! ?n) =>
                   let Hs := fresh in
                   pose proof (derive_col_src _ _ _ _ _ H) as Hs;
                   revert Hs; back; solve [auto]
               | H : update_col ?n _ ?d = Some _ |- is_Some (_ !! ?n) =>
                   let c := fresh in let c' := fresh in let Hs := fresh in
                   destruct (update_col_lookup_eq _ _ _ _ H) as (c & c' & Hs & _);
                   revert Hs; back; intros ->; solve [eauto]
               end|]).
      destruct Hin.
    + intros c Hc.
      match goal with
      | H : update_col "OrderDate" _ _ = Some _ |- _ =>
          destruct (update_col_lookup_eq _ _ _ _ H) as (c0 & c' & Hs & Hg & _)
      end.
      revert Hs; back; intros Hs. rewrite Hc in Hs. injection Hs as <-.
      apply mapM_is_Some. eauto.
  - intros [Hcols Hdates]. unfold load_and_clean_data.
    do 6 run_derive Hcols.
    destruct (Hcols "OrderDate") as [od Hod]; [in_list|].
    destruct (update_col_Some "OrderDate"
                (mapM (to_datetime parse_datetime datetime_of_number)) d4 od)
      as [d5 Hd5]; [back; exact Hod | apply mapM_is_Some; auto |].
    rewrite Hd5. cbn [mbind option_bind].
    do 2 run_derive Hcols.
    cbn [mbind option_bind].
    do 9 run_derive Hcols.
    eauto.
Qed.

(** *** The columns of the cleaned frame, one by one *)

Lemma Forall_fmap_all {A B} (P : B -> Prop) (f : A -> B) (l : list A) :
  (forall x, P (f x)) -> Forall P (f <$> l).
Proof. intros H. induction l; constructor; auto. Qed.

Lemma Forall2_fmap_all {A B} (R : A -> B -> Prop) (f : A -> B) (l : list A) :
  (forall x, R x (f x)) -> Forall2 R l (f <$> l).
Proof. intros H. induction l; constructor; auto. Qed.

Lemma numeric_cols_NoDup : List.NoDup numeric_cols.
Proof. unfold numeric_cols. repeat constructor; simpl; intuition discriminate. Qed.

Lemma clean_cols_lookup_in cols df k :
  List.NoDup cols -> In k cols ->
  foldl clean_col df cols !! k = (fmap clean) <$> (df !! k).
Proof.
  intros Hnd. revert df. induction Hnd as [|c cs Hc Hnd IH]; simpl; intros df Hin; [tauto|].
  destruct Hin as [->|Hin].
  - rewrite clean_cols_lookup_ne by assumption. apply clean_col_lookup_eq.
  - rewrite IH by assumption. rewrite clean_col_lookup_ne; [reflexivity|].
    intros ->. tauto.
Qed.

(** The step that writes a column, when that column is also what the
    step reads. *)
Ltac own_step c Es Ed :=
  match goal with
  | H : derive_col ?n ?n _ _ = Some ?d |- context [?d !! ?n] =>
      destruct (derive_col_lookup_eq _ _ _ _ _ H) as (c & Es & Ed)
  end.

Lemma load_filled df df' name v :
  load df = Some df' ->
  In (name, v) [("Category", "Unknown"); ("Brand", "Unknown Brand");
                ("Region", "Unknown"); ("Country", "Unknown");
                ("Payment_Method", "Unknown"); ("Courier", "Unknown");
                ("Late Deliveries?", "No")] ->
  exists c, df !! name = Some c
            /\ df' !! name = Some (fillna_cell (CStr v) <$> c).
Proof.
  intros H Hin. invert_load H. simpl in Hin.
  repeat (destruct Hin as [[= <- <-]|Hin];
          [back; own_step c Es Ed; exists c; split; [revert Es; back; auto | exact Ed]|]).
  destruct Hin.
Qed.

Lemma load_filled_some df df' name :
  load df = Some df' -> In name filled_columns ->
  exists v c, df !! name = Some c
              /\ df' !! name = Some (fillna_cell (CStr v) <$> c).
Proof.
  intros H Hin. simpl in Hin.
  repeat (destruct Hin as [<-|Hin];
          [eexists; eapply load_filled; [exact H | in_list]|]).
  destruct Hin.
Qed.

Lemma load_order_date df df' :
  load df = Some df' ->
  exists c c', df !! "OrderDate" = Some c
               /\ mapM to_dt c = Some c'
               /\ df' !! "OrderDate" = Some c'.
Proof.
  intros H. invert_load H.
  match goal with
  | H : update_col "OrderDate" _ _ = Some _ |- _ =>
      destruct (update_col_lookup_eq _ _ _ _ H) as (c & c' & Es & Eg & Ed)
  end.
  exists c, c'. split; [revert Es; back; auto|]. split; [exact Eg|]. back. exact Ed.
Qed.

Lemma load_optional_date df df' name :
  load df = Some df' ->
  In name ["Shipping_Date"; "Expected_Delivery_Date"] ->
  exists c, df !! name = Some c /\ df' !! name = Some (to_dtc <$> c).
Proof.
  intros H Hin. invert_load H. simpl in Hin.
  repeat (destruct Hin as [<-|Hin];
          [back; own_step c Es Ed; exists c; split; [revert Es; back; auto | exact Ed]|]).
  destruct Hin.
Qed.

Lemma load_numeric df df' name :
  load df = Some df' -> In name numeric_cols ->
  df' !! name = (fmap clean) <$> (df !! name).
Proof.
  intros H Hin. invert_load H.
  pose proof Hin as Hin'. simpl in Hin.
  repeat (destruct Hin as [<-|Hin];
          [back; rewrite (clean_cols_lookup_in _ _ _ numeric_cols_NoDup Hin');
           back; reflexivity|]).
  destruct Hin.
Qed.

Lemma load_is_late df df' :
  load df = Some df' ->
  exists c, df !! "Late Deliveries?" = Some c
            /\ df' !! "IsLate" = Some (is_late <$> (fillna_cell (CStr "No") <$> c)).
Proof.
  intros H. pose proof (load_filled _ _ "Late Deliveries?" "No" H) as (c & Hc & Hc');
    [in_list|].
  exists c. split; [exact Hc|].
  invert_load H.
  match goal with
  | H : derive_col _ "IsLate" _ _ = Some _ |- _ =>
      destruct (derive_col_lookup_eq _ _ _ _ _ H) as (c1 & Es & Ed)
  end.
  revert Hc'. back. rewrite Es. intros [= ->]. exact Ed.
Qed.

Lemma load_prime df df' :
  load df = Some df' ->
  exists c, df !! "Prime_Member" = Some c
            /\ df' !! "Prime_Member"
               = Some ((fun c => astype_bool (fillna_cell (CNum 0) c)) <$> c).
Proof.
  intros H. invert_load H.
  back; own_step c Es Ed; exists c; split; [revert Es; back; auto | exact Ed].
Qed.

Lemma load_calendar df df' :
  load df = Some df' ->
  exists od, df' !! "OrderDate" = Some od
    /\ df' !! "Year" = Some (year_of <$> od)
    /\ df' !! "Month" = Some (month_of <$> od)
    /\ df' !! "MonthName" = Some (month_name_of <$> od)
    /\ df' !! "DayOfWeek" = Some (dayofweek_of <$> od)
    /\ df' !! "DayName" = Some (day_name_of <$> od)
    /\ df' !! "YearMonth" = Some (year_month_of <$> od).
Proof.
  intros H. destruct (load_order_date _ _ H) as (c & od & _ & _ & Hod).
  exists od. split; [exact Hod|].
  invert_load H. revert Hod. back. intros Hod.
  repeat split;
    back;
    match goal with
    | H : derive_col "OrderDate" ?dst _ _ = Some ?d |- ?d !! ?dst = _ =>
        destruct (derive_col_lookup_eq _ _ _ _ _ H) as (c1 & Es & Ed);
        revert Es; back; rewrite Hod; intros [= <-]; exact Ed
    end.
Qed.

Lemma load_other df df' k :
  load df = Some df' -> ~ In k written_columns -> df' !! k = df !! k.
Proof.
  intros H Hk. invert_load H.
  repeat match goal with
  | H : derive_col _ ?dst _ ?d = Some ?d' |- context [?d' !! k] =>
      rewrite (derive_col_lookup_ne _ _ _ _ _ k H)
        by (intros ->; apply Hk; vm_compute; tauto)
  | H : update_col ?n _ ?d = Some ?d' |- context [?d' !! k] =>
      rewrite (update_col_lookup_ne _ _ _ _ k H)
        by (intros ->; apply Hk; vm_compute; tauto)
  | |- context [foldl clean_col ?d numeric_cols !! k] =>
      rewrite (clean_cols_lookup_ne numeric_cols d k)
        by (intros Hin; apply Hk; unfold written_columns;
            apply in_or_app; right; apply in_or_app; left; exact Hin)
  end.
  reflexivity.
Qed.

Lemma lower_ascii_inv (a t : ascii) :
  In t ["y"; "e"; "s"]%char ->
  lower_ascii a = t <-> a = t \/ a = ascii_of_N (N_of_ascii t - 32).
Proof.
  intros [<-|[<-|[<-|[]]]];
    destruct a as [[] [] [] [] [] [] [] []]; vm_compute;
    (split; [intros H; try discriminate H; auto
            | intros [H|H]; try discriminate H; reflexivity]).
Qed.

Lemma lower_yes s : lower s = "yes" <-> In s yes_spellings.
Proof.
  split.
  - destruct s as [|a [|b [|c [|? ?]]]]; simpl; try discriminate.
    intros [= Ha Hb Hc].
    apply (lower_ascii_inv a "y") in Ha; [|simpl; auto].
    apply (lower_ascii_inv b "e") in Hb; [|simpl; auto].
    apply (lower_ascii_inv c "s") in Hc; [|simpl; auto].
    destruct Ha as [-> | ->], Hb as [-> | ->], Hc as [-> | ->]; vm_compute; tauto.
  - intros Hin. simpl in Hin.
    repeat (destruct Hin as [<-|Hin]; [reflexivity|]). destruct Hin.
Qed.

(** X21.  After the cleaning step the six filled categorical columns
    and the late indicator have no missing value, every numeric column
    that is there holds numbers only, the prime-member and late flags
    are truth values, and the three date columns hold timestamps or
    missing values only. *)
Theorem cleaned_columns_kinds df df' :
  load_and_clean_data parse_numeric parse_datetime datetime_of_number df = Some df' ->
  (forall name, In name filled_columns ->
     exists c, df' !! name = Some c /\ Forall (fun x => is_null x = false) c)
  /\ (forall name c, In name numeric_cols -> df' !! name = Some c ->
        Forall (fun x => is_number x = true) c)
  /\ (forall name, In name ["Prime_Member"; "IsLate"] ->
        exists c, df' !! name = Some c /\ Forall (fun x => is_truth_value x = true) c)
  /\ (forall name, In name date_columns ->
        exists c, df' !! name = Some c
                  /\ Forall (fun x => is_timestamp_or_null x = true) c).
Proof.
  intros H. split; [|split; [|split]].
  - intros name Hin. simpl in Hin.
    destruct (load_filled_some _ _ _ H Hin) as (v & c & _ & Hc).
    eexists; split; [exact Hc|].
    apply Forall_fmap_all; intros []; reflexivity.
  - intros name c Hin. rewrite (load_numeric _ _ _ H Hin).
    destruct (df !! name); simpl; [|discriminate]. intros [= <-].
    apply Forall_fmap_all. intros [|s| | |]; try reflexivity.
    unfold clean_numeric; simpl. destruct (parse_numeric s); reflexivity.
  - intros name [<-|[<-|[]]].
    + destruct (load_prime _ _ H) as (c & _ & Hc).
      eexists; split; [exact Hc|]. apply Forall_fmap_all. reflexivity.
    + destruct (load_is_late _ _ H) as (c & _ & Hc).
      eexists; split; [exact Hc|]. apply Forall_fmap_all. intros []; reflexivity.
  - intros name [<-|Hin].
    + destruct (load_order_date _ _ H) as (c & c' & _ & Hm & Hc).
      exists c'. split; [exact Hc|].
      apply mapM_Some in Hm. clear -Hm. induction Hm as [|x y l l' Hxy _ IH]; constructor; auto.
      destruct x; simpl in Hxy; simplify_eq; auto.
      * destruct (parse_datetime s); simplify_eq/=; auto.
      * destruct (datetime_of_number q); simplify_eq/=; auto.
    + destruct (load_optional_date _ _ _ H Hin) as (c & _ & Hc).
      eexists; split; [exact Hc|]. apply Forall_fmap_all.
      intros x. unfold to_datetime_coerce.
      destruct x; simpl; auto.
      * destruct (parse_datetime s); reflexivity.
      * destruct (datetime_of_number q); reflexivity.
Qed.

(** X22.  The late flag of a row is true exactly when its raw late
    indicator is one of the eight spellings of the text "yes"; a missing
    indicator, any other text and any value that is not a text give
    false. *)
Theorem late_flag_iff_yes df df' :
  load_and_clean_data parse_numeric parse_datetime datetime_of_number df = Some df' ->
  exists raw out,
    df !! "Late Deliveries?" = Some raw
    /\ df' !! "IsLate" = Some out
    /\ Forall2 late_flag raw out.
Proof.
  intros H. destruct (load_is_late _ _ H) as (raw & Hraw & Hout).
  exists raw, (is_late <$> (fillna_cell (CStr "No") <$> raw)).
  split; [exact Hraw|]. split; [exact Hout|].
  rewrite <- list_fmap_compose. apply Forall2_fmap_all.
  intros x. unfold late_flag, compose.
  destruct x as [|s|q|b|d]; simpl;
    try (exists false; split; [reflexivity|];
         split; [discriminate | intros (s & Hs & _); discriminate]).
  exists (String.eqb (lower s) "yes"). split; [reflexivity|].
  rewrite String.eqb_eq, lower_yes. split.
  - intros Hin. eauto.
  - intros (s' & [= <-] & Hin). exact Hin.
Qed.

(** X23.  Each of the eight numeric columns that is in the raw frame is
    cleaned value by value: a number stays as it is, a truth value
    counts as 0 or 1, a text becomes the number it reads as, a missing
    value and a text that does not read as a number become 0, and any
    other value becomes some number.  A numeric column that is not in
    the raw frame is not added. *)
Theorem numeric_columns_cleaned df df' name :
  load_and_clean_data parse_numeric parse_datetime datetime_of_number df = Some df' ->
  In name numeric_cols ->
  match df !! name with
  | None => df' !! name = None
  | Some raw =>
      exists out, df' !! name = Some out
        /\ Forall2 (fun x y =>
             match x with
             | CNum q => y = CNum q
             | CBool b => y = CNum (Qof_bool b)
             | CStr s => y = CNum (default 0%Q (parse_numeric s))
             | CNull => y = CNum 0
             | CDate _ => is_number y = true
             end) raw out
  end.
Proof.
  intros H Hin. rewrite (load_numeric _ _ _ H Hin).
  destruct (df !! name) as [raw|]; simpl; [|reflexivity].
  eexists. split; [reflexivity|]. apply Forall2_fmap_all.
  intros [|s| | |]; try reflexivity.
  unfold clean_numeric; simpl. destruct (parse_numeric s); reflexivity.
Qed.

Lemma load_keeps df df' k :
  load df = Some df' -> is_Some (df !! k) -> is_Some (df' !! k).
Proof.
  intros H Hk. invert_load H.
  repeat match goal with
  | H : derive_col _ _ _ _ = Some ?d |- is_Some (?d !! k) =>
      apply (derive_col_keeps _ _ _ _ _ k H)
  | H : update_col _ _ _ = Some ?d |- is_Some (?d !! k) =>
      apply (update_col_keeps _ _ _ _ k H)
  | |- is_Some (foldl _ _ _ !! k) => apply clean_cols_keeps
  end.
  exact Hk.
Qed.

Lemma load_mandatory df df' name :
  load df = Some df' -> In name mandatory_columns -> is_Some (df !! name).
Proof.
  intros H Hin.
  assert (Hc : In name filled_columns \/ "OrderDate" = name
               \/ In name ["Shipping_Date"; "Expected_Delivery_Date"]
               \/ "Prime_Member" = name).
  { simpl in Hin. simpl. tauto. }
  destruct Hc as [Hc|[<-|[Hc|<-]]].
  - destruct (load_filled_some _ _ _ H Hc) as (v & c & Hc' & _). eauto.
  - destruct (load_order_date _ _ H) as (c & c' & Hc' & _). eauto.
  - destruct (load_optional_date _ _ _ H Hc) as (c & Hc' & _). eauto.
  - destruct (load_prime _ _ H) as (c & Hc' & _). eauto.
Qed.

Lemma load_derived df df' name :
  load df = Some df' -> In name derived_columns -> is_Some (df' !! name).
Proof.
  intros H Hin.
  destruct (load_is_late _ _ H) as (c & _ & Hl).
  destruct (load_calendar _ _ H) as (od & _ & Hy & Hm & Hmn & Hdw & Hdn & Hym).
  simpl in Hin.
  repeat (destruct Hin as [<-|Hin]; [eauto|]). destruct Hin.
Qed.

(** X24.  The cleaning step leaves every column that it does not name as
    it is, value for value, and the columns of the cleaned frame are
    those of the raw frame and the seven added ones (the late flag and
    the six calendar columns), no other. *)
Theorem cleaning_touches_named_columns_only df df' :
  load_and_clean_data parse_numeric parse_datetime datetime_of_number df = Some df' ->
  (forall k, ~ In k written_columns -> df' !! k = df !! k)
  /\ (forall k, is_Some (df' !! k) <-> is_Some (df !! k) \/ In k derived_columns).
Proof.
  intros H. split; [intros k; apply load_other; exact H|].
  intros k. split.
  - intros Hk.
    destruct (in_dec string_dec k written_columns) as [Hin|Hout].
    + unfold written_columns in Hin. apply in_app_or in Hin as [Hin|Hin].
      * left. eapply load_mandatory; eauto.
      * apply in_app_or in Hin as [Hin|Hin]; [|now right].
        left. rewrite (load_numeric _ _ _ H Hin) in Hk.
        destruct (df !! k); [eauto|]. destruct Hk as [? Hk]. discriminate Hk.
    + left. now rewrite <- (load_other _ _ _ H Hout).
  - intros [Hk|Hk]; [eapply load_keeps | eapply load_derived]; eauto.
Qed.

(** X25.  The calendar columns follow from the order-date column alone:
    two raw frames with the same order-date column come out of the
    cleaning step with the same order-date, year, month, month-name,
    day-of-week, day-name and year-month columns, whatever their other
    columns hold. *)
Theorem calendar_from_order_date_only df1 df2 df1' df2' :
  load_and_clean_data parse_numeric parse_datetime datetime_of_number df1 = Some df1' ->
  load_and_clean_data parse_numeric parse_datetime datetime_of_number df2 = Some df2' ->
  df1 !! "OrderDate" = df2 !! "OrderDate" ->
  forall k, In k ("OrderDate" :: calendar_columns) -> df1' !! k = df2' !! k.
Proof.
  intros H1 H2 Hod k Hin.
  destruct (load_order_date _ _ H1) as (c1 & c1' & Hc1 & Hm1 & Hd1).
  destruct (load_order_date _ _ H2) as (c2 & c2' & Hc2 & Hm2 & Hd2).
  rewrite Hc1, Hc2 in Hod. injection Hod as <-.
  rewrite Hm1 in Hm2. injection Hm2 as <-.
  destruct (load_calendar _ _ H1) as (od1 & Ho1 & Hy1 & Hmo1 & Hmn1 & Hdw1 & Hdn1 & Hym1).
  destruct (load_calendar _ _ H2) as (od2 & Ho2 & Hy2 & Hmo2 & Hmn2 & Hdw2 & Hdn2 & Hym2).
  rewrite Hd1 in Ho1. injection Ho1 as <-.
  rewrite Hd2 in Ho2. injection Ho2 as <-.
  simpl in Hin.
  repeat (destruct Hin as [<-|Hin]; [congruence|]). destruct Hin.
Qed.

(** X26.  Row by row, the six calendar cells are read off the cleaned
    order date of the same row: the year, the month, the month's
    abbreviation, the day-of-week index, the day's name and the
    year-month key of a timestamp; for a missing order date five missing
    values and the text "NaT" as year-month key. *)
Theorem calendar_of_each_row df df' :
  load_and_clean_data parse_numeric parse_datetime datetime_of_number df = Some df' ->
  exists od, df' !! "OrderDate" = Some od
             /\ forall i, row_of df' calendar_columns i = calendar_of <$> (od !! i).
Proof.
  intros H.
  destruct (load_calendar _ _ H) as (od & Ho & Hy & Hmo & Hmn & Hdw & Hdn & Hym).
  exists od. split; [exact Ho|]. intros i.
  unfold row_of, calendar_columns. cbn [mapM].
  rewrite Hy, Hmo, Hmn, Hdw, Hdn, Hym. cbn [mbind option_bind].
  rewrite !list_lookup_fmap.
  destruct (od !! i) as [[]|]; reflexivity.
Qed.

(** X27.  In each filled column a missing value becomes the column's
    default ("Unknown" for the category, region, country, payment
    method and courier, "Unknown Brand" for the brand, "No" for the late
    indicator) and every other value stays as it is; no later step of
    the cleaning writes these columns again. *)
Theorem missing_values_get_defaults df df' name v :
  load_and_clean_data parse_numeric parse_datetime datetime_of_number df = Some df' ->
  In (name, v) fill_values ->
  exists raw out,
    df !! name = Some raw
    /\ df' !! name = Some out
    /\ Forall2 (fun x y => if is_null x then y = CStr v else y = x) raw out.
Proof.
  intros H Hin. destruct (load_filled _ _ _ _ H Hin) as (raw & Hraw & Hout).
  exists raw, (fillna_cell (CStr v) <$> raw).
  split; [exact Hraw|]. split; [exact Hout|].
  apply Forall2_fmap_all. intros []; reflexivity.
Qed.

(** *** From the cleaned frame to the views *)











End NormalizerFacts.

Lemma normalizer_idempotent_witness :
  load_and_clean_data example_parse_numeric example_parse_datetime
    example_datetime_of_number raw_example = Some cleaned_example
  /\ load_and_clean_data example_parse_numeric example_parse_datetime
       example_datetime_of_number cleaned_example = Some cleaned_example.
Proof.
  assert (H : load_and_clean_data example_parse_numeric example_parse_datetime
                example_datetime_of_number raw_example = Some cleaned_example)
    by reflexivity.
  split; [exact H|].
  exact (normalizer_idempotent _ _ _ _ _ H).
Defined.

Lemma prime_member_coercion_witness :
  load_and_clean_data example_parse_numeric example_parse_datetime
    example_datetime_of_number raw_example = Some cleaned_example
  /\ exists raw out,
       raw_example !! "Prime_Member" = Some raw
       /\ cleaned_example !! "Prime_Member" = Some out
       /\ Forall2 prime_coerced raw out.
Proof.
  assert (H : load_and_clean_data example_parse_numeric example_parse_datetime
                example_datetime_of_number raw_example = Some cleaned_example)
    by reflexivity.
  split; [exact H|].
  exact (prime_member_coercion _ _ _ _ _ H).
Defined.

(** The texts "No" and "false" in the prime-member column come out as
    [True]; a missing value and zero as [False]. *)
Example prime_member_No :
  (fun c => astype_bool (fillna_cell (CNum 0) c))
    <$> [CStr "No"; CStr "false"; CNull; CNum 0]
  = [CBool true; CBool true; CBool false; CBool false].
Proof. reflexivity. Qed.

Lemma cleaning_keeps_rows_and_columns_witness :
  load_and_clean_data example_parse_numeric example_parse_datetime
    example_datetime_of_number raw_example = Some cleaned_example
  /\ Rows 2 raw_example
  /\ Rows 2 cleaned_example
  /\ forall k, is_Some (raw_example !! k) -> is_Some (cleaned_example !! k).
Proof.
  assert (H : load_and_clean_data example_parse_numeric example_parse_datetime
                example_datetime_of_number raw_example = Some cleaned_example)
    by reflexivity.
  assert (Hn : Rows 2 raw_example).
  { intros k c Hk. unfold raw_example in Hk. apply elem_of_list_to_map_2 in Hk.
    rewrite !elem_of_cons, elem_of_nil in Hk.
    repeat (destruct Hk as [[= -> ->]|Hk]; [reflexivity|]). destruct Hk. }
  split; [exact H|]. split; [exact Hn|].
  exact (cleaning_keeps_rows_and_columns _ _ _ 2 _ _ H Hn).
Defined.

Lemma cleaned_columns_kinds_witness :
  load_and_clean_data example_parse_numeric example_parse_datetime
    example_datetime_of_number raw_example = Some cleaned_example
  /\ exists c, cleaned_example !! "Courier" = Some c
               /\ Forall (fun x => is_null x = false) c.
Proof.
  assert (H : load_and_clean_data example_parse_numeric example_parse_datetime
                example_datetime_of_number raw_example = Some cleaned_example)
    by reflexivity.
  split; [exact H|].
  apply (proj1 (cleaned_columns_kinds _ _ _ _ _ H)). unfold filled_columns. simpl. tauto.
Defined.

Lemma late_flag_iff_yes_witness :
  load_and_clean_data example_parse_numeric example_parse_datetime
    example_datetime_of_number raw_example = Some cleaned_example
  /\ exists raw out,
       raw_example !! "Late Deliveries?" = Some raw
       /\ cleaned_example !! "IsLate" = Some out
       /\ Forall2 late_flag raw out.
Proof.
  assert (H : load_and_clean_data example_parse_numeric example_parse_datetime
                example_datetime_of_number raw_example = Some cleaned_example)
    by reflexivity.
  split; [exact H|].
  exact (late_flag_iff_yes _ _ _ _ _ H).
Defined.

Lemma numeric_columns_cleaned_witness :
  load_and_clean_data example_parse_numeric example_parse_datetime
    example_datetime_of_number raw_example = Some cleaned_example
  /\ In "Profit" numeric_cols
  /\ match raw_example !! "Profit" with
     | None => cleaned_example !! "Profit" = None
     | Some raw =>
         exists out, cleaned_example !! "Profit" = Some out
           /\ Forall2 (fun x y =>
                match x with
                | CNum q => y = CNum q
                | CBool b => y = CNum (Qof_bool b)
                | CStr s => y = CNum (default 0%Q (example_parse_numeric s))
                | CNull => y = CNum 0
                | CDate _ => is_number y = true
                end) raw out
     end.
Proof.
  assert (H : load_and_clean_data example_parse_numeric example_parse_datetime
                example_datetime_of_number raw_example = Some cleaned_example)
    by reflexivity.
  assert (Hin : In "Profit" numeric_cols) by (simpl; tauto).
  split; [exact H|]. split; [exact Hin|].
  exact (numeric_columns_cleaned _ _ _ _ _ "Profit" H Hin).
Defined.

Lemma cleaning_touches_named_columns_only_witness :
  load_and_clean_data example_parse_numeric example_parse_datetime
    example_datetime_of_number raw_example = Some cleaned_example
  /\ (forall k, ~ In k written_columns -> cleaned_example !! k = raw_example !! k)
  /\ (forall k, is_Some (cleaned_example !! k)
                <-> is_Some (raw_example !! k) \/ In k derived_columns).
Proof.
  assert (H : load_and_clean_data example_parse_numeric example_parse_datetime
                example_datetime_of_number raw_example = Some cleaned_example)
    by reflexivity.
  split; [exact H|].
  exact (cleaning_touches_named_columns_only _ _ _ _ _ H).
Defined.

Lemma calendar_from_order_date_only_witness :
  load_and_clean_data example_parse_numeric example_parse_datetime
    example_datetime_of_number raw_example = Some cleaned_example
  /\ load_and_clean_data example_parse_numeric example_parse_datetime
       example_datetime_of_number recategorised_raw = Some recategorised_cleaned
  /\ raw_example !! "OrderDate" = recategorised_raw !! "OrderDate"
  /\ forall k, In k ("OrderDate" :: calendar_columns) ->
               cleaned_example !! k = recategorised_cleaned !! k.
Proof.
  assert (H1 : load_and_clean_data example_parse_numeric example_parse_datetime
                 example_datetime_of_number raw_example = Some cleaned_example)
    by reflexivity.
  assert (H2 : load_and_clean_data example_parse_numeric example_parse_datetime
                 example_datetime_of_number recategorised_raw = Some recategorised_cleaned)
    by reflexivity.
  assert (H3 : raw_example !! "OrderDate" = recategorised_raw !! "OrderDate")
    by reflexivity.
  split; [exact H1|]. split; [exact H2|]. split; [exact H3|].
  exact (calendar_from_order_date_only _ _ _ _ _ _ _ H1 H2 H3).
Defined.

Lemma calendar_of_each_row_witness :
  load_and_clean_data example_parse_numeric example_parse_datetime
    example_datetime_of_number raw_example = Some cleaned_example
  /\ exists od, cleaned_example !! "OrderDate" = Some od
                /\ forall i, row_of cleaned_example calendar_columns i
                             = calendar_of <$> (od !! i).
Proof.
  assert (H : load_and_clean_data example_parse_numeric example_parse_datetime
                example_datetime_of_number raw_example = Some cleaned_example)
    by reflexivity.
  split; [exact H|].
  exact (calendar_of_each_row _ _ _ _ _ H).
Defined.

Lemma missing_values_get_defaults_witness :
  load_and_clean_data example_parse_numeric example_parse_datetime
    example_datetime_of_number raw_example = Some cleaned_example
  /\ In ("Brand", "Unknown Brand") fill_values
  /\ exists raw out,
       raw_example !! "Brand" = Some raw
       /\ cleaned_example !! "Brand" = Some out
       /\ Forall2 (fun x y => if is_null x then y = CStr "Unknown Brand" else y = x)
            raw out.
Proof.
  assert (H : load_and_clean_data example_parse_numeric example_parse_datetime
                example_datetime_of_number raw_example = Some cleaned_example)
    by reflexivity.
  assert (Hin : In ("Brand", "Unknown Brand") fill_values) by (simpl; tauto).
  split; [exact H|]. split; [exact Hin|].
  exact (missing_values_get_defaults _ _ _ _ _ _ _ H Hin).
Defined.

(** The spellings of "yes" and some texts that are not one. *)
Example late_flags :
  is_late <$> [CStr "yes"; CStr "YES"; CStr "Yes"; CStr "y"; CStr "yes "; CStr "No";
               CBool true; CNum 1]
  = [CBool true; CBool true; CBool true; CBool false; CBool false; CBool false;
     CBool false; CBool false].
Proof. reflexivity. Qed.

